(** * AI-search-chat front end: a shallow embedding and its properties

    The development follows the TypeScript sources of the chat client:

    - [frontend/lib/useStreamingChat.ts]: the SSE reader and the per-event
      state updates of the [useStreamingChat] hook;
    - [MessageBubble] (the plain and the Markdown version) and
      [frontend/components/CitationBadge.tsx]: citation markers in the text;
    - [generative/ComponentRenderer]: dispatch on component names;
    - [ChatInterface]: [handleCitationClick];
    - [frontend/components/DocumentUpload.tsx]: [handleFileUpload].

    The first part holds the embedding, one module per source file, and the
    vocabulary of the statements; the second part holds the properties.

    JavaScript strings are modelled as [string] (a sequence of bytes, to be
    read as the UTF-8 form of the text). The numbers the code computes with
    are integers and are modelled in [Z], exactly; a double represents them
    exactly below 2^53. *)

From Stdlib Require Import ZArith String Ascii List Lia Bool DecimalString.
From stdpp Require Import base list strings.
From Equations Require Import Equations.
Import ListNotations.

Set Warnings "-register-all".

Local Open Scope string_scope.
Local Open Scope list_scope.
Local Open Scope Z_scope.

(* ================================================================= *)
(** ** JavaScript strings *)

Module JSString.

(** Decimal rendering of an integer, as a template literal does it. *)
Definition Z_to_string (x : Z) : string :=
  NilZero.string_of_int (Z.to_int x).

(** [s.startsWith(p)] *)
Fixpoint startsWith (p s : string) : bool :=
  match p, s with
  | EmptyString, _ => true
  | String a p', String b s' => Ascii.eqb a b && startsWith p' s'
  | String _ _, EmptyString => false
  end.

(** [s.substring(n)]: the text from index [n] on. *)
Fixpoint substring_from (n : nat) (s : string) : string :=
  match n, s with
  | O, _ => s
  | S n', String _ s' => substring_from n' s'
  | S _, EmptyString => EmptyString
  end.

(** [s.endsWith(suffix)] *)
Definition endsWith (suffix s : string) : bool :=
  (String.length suffix <=? String.length s)%nat
  && String.eqb (substring_from (String.length s - String.length suffix) s) suffix.

Definition is_upper (c : ascii) : bool :=
  let n := nat_of_ascii c in ((65 <=? n) && (n <=? 90))%nat.

Definition lower_char (c : ascii) : ascii :=
  if is_upper c then ascii_of_nat (nat_of_ascii c + 32) else c.

(** [s.toLowerCase()] on the ASCII letters; other bytes are kept. *)
Fixpoint toLowerCase (s : string) : string :=
  match s with
  | EmptyString => EmptyString
  | String c s' => String (lower_char c) (toLowerCase s')
  end.

Definition newline : ascii := ascii_of_nat 10.

Definition double_quote : ascii := ascii_of_nat 34.

(** [s.split('\n')]: the pieces between line feeds; never empty. *)
Fixpoint split_newline (s : string) : list string :=
  match s with
  | EmptyString => [EmptyString]
  | String c s' =>
      if Ascii.eqb c newline then EmptyString :: split_newline s'
      else match split_newline s' with
           | l :: ls => String c l :: ls
           | [] => [String c EmptyString]
           end
  end.

Definition is_digit (c : ascii) : bool :=
  let n := nat_of_ascii c in ((48 <=? n) && (n <=? 57))%nat.

Definition digit_value (c : ascii) : Z := Z.of_nat (nat_of_ascii c) - 48.

(** Value of a digit string read left to right, from accumulator [acc]. *)
Fixpoint decimal_value (acc : Z) (ds : list ascii) : Z :=
  match ds with
  | [] => acc
  | d :: ds' => decimal_value (10 * acc + digit_value d) ds'
  end.

(** The longest prefix of decimal digits, and what follows it. *)
Fixpoint span_digits (s : list ascii) : list ascii * list ascii :=
  match s with
  | c :: s' =>
      if is_digit c then let '(ds, r) := span_digits s' in (c :: ds, r)
      else ([], s)
  | [] => ([], [])
  end.

Definition concat_strings (l : list string) : string :=
  fold_right String.append EmptyString l.

End JSString.

(* ================================================================= *)
(** ** JSON values, [JSON.parse] and the coercions the client applies *)

Module JSON.
Import JSString.

(** A JSON number, kept exactly as [mant * 10 ^ exp10]; in normal form
    [mant] is not a multiple of ten (and [0] is [0 * 10 ^ 0]). The engine
    holds the double nearest to the literal: what is stated below about a
    value that is printed, compared or tested for truth leaves the numbers
    out (see [Exact]). *)
Record number := mkNumber { mant : Z; exp10 : Z }.

Inductive json :=
| JNull
| JBool (b : bool)
| JNum (n : number)
| JStr (s : string)
| JArr (elements : list json)
| JObj (members : list (string * json)).

(** The value of an expression: [None] is [undefined]. *)
Definition jsval := option json.

Definition undefined : jsval := None.
Definition null : jsval := Some JNull.

(** Own property lookup on a parsed object; with a repeated key the last
    member wins, as in [JSON.parse]. *)
Fixpoint lookup_member (key : string) (members : list (string * json)) : jsval :=
  match members with
  | [] => None
  | (k, v) :: rest =>
      match lookup_member key rest with
      | Some v' => Some v'
      | None => if String.eqb k key then Some v else None
      end
  end.

(** [data.key] for a key that no prototype defines ([type], [content],
    [name], [status], [props]): [undefined] on anything but an object with
    that member. [data] is never [null] here, see [handle_data]. *)
Definition prop (data : json) (key : string) : jsval :=
  match data with
  | JObj members => lookup_member key members
  | _ => None
  end.

(** [v === 'lit'] *)
Definition is_string (v : jsval) (lit : string) : bool :=
  match v with
  | Some (JStr s) => String.eqb s lit
  | _ => false
  end.

Definition number_eqb (a b : number) : bool :=
  (mant a =? mant b) && (exp10 a =? exp10 b).

(** [a === b] between a value stored from an earlier event and a value of
    the current event. Arrays and objects compare by identity, and every
    [JSON.parse] allocates its own, so they are never equal. *)
Definition strict_eq (a b : jsval) : bool :=
  match a, b with
  | None, None => true
  | Some JNull, Some JNull => true
  | Some (JBool x), Some (JBool y) => Bool.eqb x y
  | Some (JNum x), Some (JNum y) => number_eqb x y
  | Some (JStr x), Some (JStr y) => String.eqb x y
  | _, _ => false
  end.

Fixpoint zeros (n : nat) : string :=
  match n with O => EmptyString | S n' => String "0" (zeros n') end.

Definition string_take (n : nat) (s : string) : string := substring 0 n s.

(** [Number.prototype.toString] for a number in normal form. *)
Definition Number_toString (x : number) : string :=
  if mant x =? 0 then "0" else
  let ds := Z_to_string (Z.abs (mant x)) in
  let k := Z.of_nat (String.length ds) in
  let n := k + exp10 x in
  let body :=
    if (k <=? n) && (n <=? 21) then ds +:+ zeros (Z.to_nat (n - k))
    else if (0 <? n) && (n <=? 21) then
      string_take (Z.to_nat n) ds +:+ "." +:+ substring_from (Z.to_nat n) ds
    else if (-6 <? n) && (n <=? 0) then "0." +:+ zeros (Z.to_nat (- n)) +:+ ds
    else
      let e := n - 1 in
      let es := (if e <? 0 then "-" else "+") +:+ Z_to_string (Z.abs e) in
      if k =? 1 then ds +:+ "e" +:+ es
      else string_take 1 ds +:+ "." +:+ substring_from 1 ds +:+ "e" +:+ es in
  if mant x <? 0 then "-" +:+ body else body.

Definition join_comma (l : list string) : string :=
  match l with
  | [] => EmptyString
  | x :: rest => fold_left (fun acc y => acc +:+ "," +:+ y) rest x
  end.

(** [String(v)] for a parsed value, as [+] with a string applies it: an
    array is joined with commas, an object gives [[object Object]]. This is
    the result where the conversion returns one: on an object that has a
    member named [toString] of its own the engine throws a [TypeError]
    instead, and such values are left out of what is stated about the
    text (see [Exact.coercible]). *)
Fixpoint json_toString (v : json) : string :=
  match v with
  | JNull => "null"
  | JBool true => "true"
  | JBool false => "false"
  | JNum n => Number_toString n
  | JStr s => s
  | JArr l =>
      join_comma (List.map (fun e => match e with
                                     | JNull => EmptyString
                                     | _ => json_toString e
                                     end) l)
  | JObj _ => "[object Object]"
  end.

Definition toString (v : jsval) : string :=
  match v with
  | None => "undefined"
  | Some j => json_toString j
  end.

(** *** [JSON.parse] *)

Definition is_ws (c : ascii) : bool :=
  let n := nat_of_ascii c in
  ((n =? 32) || (n =? 9) || (n =? 10) || (n =? 13))%nat.

Fixpoint skip_ws (s : string) : string :=
  match s with
  | String c s' => if is_ws c then skip_ws s' else s
  | EmptyString => EmptyString
  end.

Definition hex_value (c : ascii) : option Z :=
  let n := Z.of_nat (nat_of_ascii c) in
  if (48 <=? n) && (n <=? 57) then Some (n - 48)
  else if (65 <=? n) && (n <=? 70) then Some (n - 55)
  else if (97 <=? n) && (n <=? 102) then Some (n - 87)
  else None.

Definition byte (n : Z) : ascii := ascii_of_nat (Z.to_nat n).

(** The bytes of a code unit given by a [\uXXXX] escape that is not half of
    a surrogate pair (a surrogate that stands alone keeps three bytes of
    its own). *)
Definition encode_unit (u : Z) : string :=
  if u <? 128 then String (byte u) EmptyString
  else if u <? 2048 then
    String (byte (192 + u / 64)) (String (byte (128 + u mod 64)) EmptyString)
  else
    String (byte (224 + u / 4096))
      (String (byte (128 + (u / 64) mod 64))
         (String (byte (128 + u mod 64)) EmptyString)).

Definition is_high_surrogate (u : Z) : bool := (55296 <=? u) && (u <=? 56319).

Definition is_low_surrogate (u : Z) : bool := (56320 <=? u) && (u <=? 57343).

(** The four bytes of the character that a high and a low surrogate written
    as two escapes stand for: the bytes the same character has when the text
    holds it as it is. *)
Definition encode_pair (hi lo : Z) : string :=
  let cp := 65536 + (hi - 55296) * 1024 + (lo - 56320) in
  String (byte (240 + cp / 262144))
    (String (byte (128 + (cp / 4096) mod 64))
       (String (byte (128 + (cp / 64) mod 64))
          (String (byte (128 + cp mod 64)) EmptyString))).

Definition hex4 (h1 h2 h3 h4 : ascii) : option Z :=
  match hex_value h1, hex_value h2, hex_value h3, hex_value h4 with
  | Some a, Some b, Some c, Some d => Some (((a * 16 + b) * 16 + c) * 16 + d)
  | _, _, _, _ => None
  end.

(** The characters of a string literal after its opening quote. *)
Fixpoint parse_string_body (s : string) : option (string * string) :=
  match s with
  | EmptyString => None
  | String c r =>
      if Ascii.eqb c double_quote then Some (EmptyString, r)
      else if (nat_of_ascii c <? 32)%nat then None
      else if Ascii.eqb c "\" then
        match r with
        | String e r' =>
            let simple (x : ascii) :=
              match parse_string_body r' with
              | Some (t, rest) => Some (String x t, rest)
              | None => None
              end in
            if Ascii.eqb e double_quote then simple double_quote
            else if Ascii.eqb e "\" then simple "\"%char
            else if Ascii.eqb e "/" then simple "/"%char
            else if Ascii.eqb e "b" then simple (ascii_of_nat 8)
            else if Ascii.eqb e "f" then simple (ascii_of_nat 12)
            else if Ascii.eqb e "n" then simple (ascii_of_nat 10)
            else if Ascii.eqb e "r" then simple (ascii_of_nat 13)
            else if Ascii.eqb e "t" then simple (ascii_of_nat 9)
            else if Ascii.eqb e "u" then
              match r' with
              | String h1 (String h2 (String h3 (String h4 r''))) =>
                  match hex4 h1 h2 h3 h4 with
                  | Some u =>
                      let alone :=
                        match parse_string_body r'' with
                        | Some (t, rest) => Some (encode_unit u +:+ t, rest)
                        | None => None
                        end in
                      match r'' with
                      | String b1 (String b2 (String g1 (String g2 (String g3 (String g4 r3))))) =>
                          match hex4 g1 g2 g3 g4 with
                          | Some lo =>
                              if is_high_surrogate u && is_low_surrogate lo
                                 && Ascii.eqb b1 "\" && Ascii.eqb b2 "u"
                              then
                                match parse_string_body r3 with
                                | Some (t, rest) => Some (encode_pair u lo +:+ t, rest)
                                | None => None
                                end
                              else alone
                          | None => alone
                          end
                      | _ => alone
                      end
                  | None => None
                  end
              | _ => None
              end
            else None
        | EmptyString => None
        end
      else
        match parse_string_body r with
        | Some (t, rest) => Some (String c t, rest)
        | None => None
        end
  end.

(** Strip the trailing zeros of a mantissa, at most [fuel] of them. *)
Fixpoint normalize (fuel : nat) (m e : Z) : number :=
  match fuel with
  | O => mkNumber m e
  | S f =>
      if m =? 0 then mkNumber 0 0
      else if m mod 10 =? 0 then normalize f (m / 10) (e + 1)
      else mkNumber m e
  end.

(** A number literal: an optional minus sign, an integer part without a
    leading zero (or [0] alone), an optional fraction and an optional
    exponent. The value is returned in normal form. *)
Definition parse_number (s : string) : option (number * string) :=
  let cs := list_ascii_of_string s in
  let '(neg, cs) := match cs with
                    | "-"%char :: r => (true, r)
                    | _ => (false, cs)
                    end in
  let '(ip, r) := span_digits cs in
  match ip with
  | [] => None
  | d :: ip' =>
      if Ascii.eqb d "0" && negb (Nat.eqb (List.length ip') 0) then None else
      let frac :=
        match r with
        | "."%char :: r1 =>
            let '(fp, r2) := span_digits r1 in
            match fp with [] => None | _ => Some (fp, r2) end
        | _ => Some ([], r)
        end in
      match frac with
      | None => None
      | Some (fp, r2) =>
          let expo :=
            match r2 with
            | c :: r3 =>
                if Ascii.eqb c "e" || Ascii.eqb c "E" then
                  let '(eneg, r4) := match r3 with
                                     | "-"%char :: r' => (true, r')
                                     | "+"%char :: r' => (false, r')
                                     | _ => (false, r3)
                                     end in
                  let '(ep, r5) := span_digits r4 in
                  match ep with
                  | [] => None
                  | _ => Some ((if eneg then -1 else 1) * decimal_value 0 ep, r5)
                  end
                else Some (0, r2)
            | [] => Some (0, r2)
            end in
          match expo with
          | None => None
          | Some (e, rest) =>
              let m := decimal_value 0 (ip ++ fp) in
              let m := if neg then - m else m in
              Some (normalize (List.length (ip ++ fp)) m (e - Z.of_nat (List.length fp)),
                    string_of_list_ascii rest)
          end
      end
  end.

(** [['a'; ...]] after the opening bracket and a first non-[]] character:
    values separated by commas. [pv] parses one value. *)
Fixpoint parse_elements (pv : string -> option (json * string))
         (fuel : nat) (s : string) (acc : list json) : option (list json * string) :=
  match fuel with
  | O => None
  | S f =>
      match pv s with
      | Some (v, r) =>
          match skip_ws r with
          | String c r' =>
              if Ascii.eqb c "," then parse_elements pv f r' (v :: acc)
              else if Ascii.eqb c "]" then Some (List.rev (v :: acc), r')
              else None
          | EmptyString => None
          end
      | None => None
      end
  end.

(** Members ["key" : value] separated by commas, up to the closing brace. *)
Fixpoint parse_members (pv : string -> option (json * string))
         (fuel : nat) (s : string) (acc : list (string * json))
  : option (list (string * json) * string) :=
  match fuel with
  | O => None
  | S f =>
      match skip_ws s with
      | String q r =>
          if Ascii.eqb q double_quote then
            match parse_string_body r with
            | Some (k, r1) =>
                match skip_ws r1 with
                | String c r2 =>
                    if Ascii.eqb c ":" then
                      match pv r2 with
                      | Some (v, r3) =>
                          match skip_ws r3 with
                          | String c' r4 =>
                              if Ascii.eqb c' "," then parse_members pv f r4 ((k, v) :: acc)
                              else if Ascii.eqb c' "}" then Some (List.rev ((k, v) :: acc), r4)
                              else None
                          | EmptyString => None
                          end
                      | None => None
                      end
                    else None
                | EmptyString => None
                end
            | None => None
            end
          else None
      | EmptyString => None
      end
  end.

(** One JSON value, after optional white space. [fuel] bounds the nesting. *)
Fixpoint parse_value (fuel : nat) (s : string) : option (json * string) :=
  match fuel with
  | O => None
  | S f =>
      let s := skip_ws s in
      if startsWith "null" s then Some (JNull, substring_from 4 s)
      else if startsWith "true" s then Some (JBool true, substring_from 4 s)
      else if startsWith "false" s then Some (JBool false, substring_from 5 s)
      else
        match s with
        | EmptyString => None
        | String c r =>
            if Ascii.eqb c double_quote then
              match parse_string_body r with
              | Some (t, rest) => Some (JStr t, rest)
              | None => None
              end
            else if Ascii.eqb c "[" then
              match skip_ws r with
              | String c' r' =>
                  if Ascii.eqb c' "]" then Some (JArr [], r')
                  else match parse_elements (parse_value f) (S (String.length r)) r [] with
                       | Some (l, rest) => Some (JArr l, rest)
                       | None => None
                       end
              | EmptyString => None
              end
            else if Ascii.eqb c "{" then
              match skip_ws r with
              | String c' r' =>
                  if Ascii.eqb c' "}" then Some (JObj [], r')
                  else match parse_members (parse_value f) (S (String.length r)) r [] with
                       | Some (l, rest) => Some (JObj l, rest)
                       | None => None
                       end
              | EmptyString => None
              end
            else
              match parse_number s with
              | Some (n, rest) => Some (JNum n, rest)
              | None => None
              end
        end
  end.

(** [JSON.parse(text)]: [None] when it throws a [SyntaxError]. *)
Definition JSON_parse (text : string) : option json :=
  match parse_value (S (String.length text)) text with
  | Some (v, rest) =>
      match skip_ws rest with
      | EmptyString => Some v
      | String _ _ => None
      end
  | None => None
  end.

End JSON.

(* ================================================================= *)
(** ** [types/index.ts]: messages and sources *)

Module Types.
Import JSON.

(** [ToolCall] and [GenerativeComponent]: the fields hold whatever the
    event carried ([data] is untyped in the hook). *)
Record ToolCall := mkToolCall { tc_name : jsval; tc_status : jsval }.

Record GenerativeComponent := mkComponent { gc_name : jsval; gc_props : jsval }.

Inductive Role := user | assistant.

(** [Message]; the optional fields are [None] when absent. *)
Record Message := mkMessage {
  msg_id : string;
  msg_role : Role;
  msg_content : string;
  msg_timestamp : Z;
  msg_sources : jsval;
  msg_toolCalls : option (list ToolCall);
  msg_components : option (list GenerativeComponent);
  msg_isStreaming : option bool
}.

(** [page: number | string] *)
Inductive Page :=
| PageNumber (n : Z)
| PageString (s : string).

Record Source := mkSource {
  src_id : Z;
  src_pdf_id : string;
  src_filename : string;
  src_page : Page;
  src_text : string
}.

(** Spread updates [{ ...msg, field: v }]. *)
Definition with_content (c : string) (m : Message) : Message :=
  mkMessage (msg_id m) (msg_role m) c (msg_timestamp m) (msg_sources m)
            (msg_toolCalls m) (msg_components m) (msg_isStreaming m).

Definition with_toolCalls (t : list ToolCall) (m : Message) : Message :=
  mkMessage (msg_id m) (msg_role m) (msg_content m) (msg_timestamp m) (msg_sources m)
            (Some t) (msg_components m) (msg_isStreaming m).

Definition with_components (c : list GenerativeComponent) (m : Message) : Message :=
  mkMessage (msg_id m) (msg_role m) (msg_content m) (msg_timestamp m) (msg_sources m)
            (msg_toolCalls m) (Some c) (msg_isStreaming m).

Definition with_sources (s : jsval) (m : Message) : Message :=
  mkMessage (msg_id m) (msg_role m) (msg_content m) (msg_timestamp m) s
            (msg_toolCalls m) (msg_components m) (msg_isStreaming m).

Definition with_isStreaming (b : bool) (m : Message) : Message :=
  mkMessage (msg_id m) (msg_role m) (msg_content m) (msg_timestamp m) (msg_sources m)
            (msg_toolCalls m) (msg_components m) (Some b).

End Types.

(* ================================================================= *)
(** ** [lib/useStreamingChat.ts] *)

Module StreamingChat.
Import JSString JSON Types.

Inductive AbortController := NewAbortController.

(** What [fetch] was called with. *)
Record Request := mkRequest {
  req_url : string;
  req_method : string;
  req_headers : list (string * string);
  req_body : json            (* the argument of [JSON.stringify] *)
}.

(** The hook's state, the controller reference, and the requests issued
    so far (oldest first). *)
Record Hook := mkHook {
  messages : list Message;
  isStreaming : bool;
  error : jsval;
  abortControllerRef : option AbortController;
  requests : list Request
}.

Definition setMessages (f : list Message -> list Message) (st : Hook) : Hook :=
  mkHook (f (messages st)) (isStreaming st) (error st) (abortControllerRef st) (requests st).

Definition setIsStreaming (b : bool) (st : Hook) : Hook :=
  mkHook (messages st) b (error st) (abortControllerRef st) (requests st).

Definition setError (e : jsval) (st : Hook) : Hook :=
  mkHook (messages st) (isStreaming st) e (abortControllerRef st) (requests st).

Definition setAbortController (c : option AbortController) (st : Hook) : Hook :=
  mkHook (messages st) (isStreaming st) (error st) c (requests st).

Definition log_fetch (r : Request) (st : Hook) : Hook :=
  mkHook (messages st) (isStreaming st) (error st) (abortControllerRef st)
         (requests st ++ [r]).

(** [toolCalls.findIndex(p)]: the first index whose entry satisfies [p],
    or [-1]. *)
Fixpoint findIndex {A} (p : A -> bool) (l : list A) : Z :=
  match l with
  | [] => -1
  | x :: rest =>
      if p x then 0
      else let i := findIndex p rest in if i <? 0 then -1 else i + 1
  end.

(** The [tool_call] update of one message. *)
Definition update_toolCalls (data : json) (msg : Message) : Message :=
  let toolCalls := default [] (msg_toolCalls msg) in
  let existingIndex :=
    findIndex (fun tc => strict_eq (tc_name tc) (prop data "name")) toolCalls in
  if 0 <=? existingIndex then
    let updatedToolCalls :=
      <[Z.to_nat existingIndex := mkToolCall (prop data "name") (prop data "status")]>
        toolCalls in
    with_toolCalls updatedToolCalls msg
  else
    with_toolCalls (toolCalls ++ [mkToolCall (prop data "name") (prop data "status")]) msg.

(** The [component] update of one message. *)
Definition update_components (data : json) (msg : Message) : Message :=
  let components := default [] (msg_components msg) in
  with_components (components ++ [mkComponent (prop data "name") (prop data "props")]) msg.

(** Whether the body of [sendMessage] goes on, or has returned. *)
Inductive Flow := Continue | Return.

(** The branches on [data.type] (lines 101-177), for the assistant message
    id [aid]. On [null] the first property access throws a [TypeError],
    which the enclosing [try] catches and logs. *)
Definition handle_data (aid : string) (data : json) (st : Hook) : Hook * Flow :=
  match data with
  | JNull => (st, Continue)
  | _ =>
    let type := prop data "type" in
    if is_string type "text" then
      (setMessages (fun prev =>
         List.map (fun msg =>
           if String.eqb (msg_id msg) aid
           then with_content (msg_content msg +:+ toString (prop data "content")) msg
           else msg) prev) st, Continue)
    else if is_string type "tool_call" then
      (setMessages (fun prev =>
         List.map (fun msg =>
           if String.eqb (msg_id msg) aid then update_toolCalls data msg else msg) prev) st,
       Continue)
    else if is_string type "component" then
      (setMessages (fun prev =>
         List.map (fun msg =>
           if String.eqb (msg_id msg) aid then update_components data msg else msg) prev) st,
       Continue)
    else if is_string type "sources" then
      (setMessages (fun prev =>
         List.map (fun msg =>
           if String.eqb (msg_id msg) aid
           then with_sources (prop data "content") msg
           else msg) prev) st, Continue)
    else if is_string type "done" then
      (setAbortController None
         (setIsStreaming false
            (setMessages (fun prev =>
               List.map (fun msg =>
                 if String.eqb (msg_id msg) aid then with_isStreaming false msg else msg)
                 prev) st)),
       Return)
    else if is_string type "error" then
      (setAbortController None
         (setIsStreaming false (setError (prop data "content") st)),
       Return)
    else (st, Continue)
  end.

(** One element of [chunk.split('\n')] (lines 96-181): only lines that
    start with ["data: "] are parsed; a [SyntaxError] is caught and logged. *)
Definition process_line (aid : string) (line : string) (st : Hook) : Hook * Flow :=
  if startsWith "data: " line then
    match JSON_parse (substring_from 6 line) with
    | Some data => handle_data aid data st
    | None => (st, Continue)
    end
  else (st, Continue).

(** [for (const line of lines)], left by [return]. *)
Fixpoint process_lines (aid : string) (lines : list string) (st : Hook) : Hook * Flow :=
  match lines with
  | [] => (st, Continue)
  | line :: rest =>
      match process_line aid line st with
      | (st', Return) => (st', Return)
      | (st', Continue) => process_lines aid rest st'
      end
  end.

(** [while (true)] over the successive results of [reader.read()]: each
    chunk is the text [decoder.decode] returned for one read. *)
Fixpoint read_loop (aid : string) (chunks : list string) (st : Hook) : Hook * Flow :=
  match chunks with
  | [] => (st, Continue)
  | chunk :: rest =>
      match process_lines aid (split_newline chunk) st with
      | (st', Return) => (st', Return)
      | (st', Continue) => read_loop aid rest st'
      end
  end.

(** An exception value: whether it is an [Error], its name and message. *)
Record Exception := mkException {
  exn_instanceof_Error : bool;
  exn_name : string;
  exn_message : string
}.

(** The response body: the chunks read, then the end of the stream
    ([None]) or a rejected read. *)
Record Body := mkBody {
  body_chunks : list string;
  body_failure : option Exception
}.

Inductive FetchOutcome :=
| FetchRejected (e : Exception)
| FetchResponse (ok : bool) (status : Z) (body : option Body).

(** What [sendMessage] observes of the outside: the two clock readings
    and the outcome of the request. *)
Record Environment := mkEnvironment {
  now_user : Z;
  now_assistant : Z;
  fetch_outcome : FetchOutcome
}.

(** The [catch (err)] block (lines 188-195). *)
Definition catch_block (err : Exception) (st : Hook) : Hook :=
  let st :=
    if exn_instanceof_Error err && negb (String.eqb (exn_name err) "AbortError")
    then setError (Some (JStr (if String.eqb (exn_message err) ""
                               then "Failed to connect" else exn_message err))) st
    else st in
  setAbortController None (setIsStreaming false st).

(** From the read loop to the end of [sendMessage] (lines 78-195). *)
Definition read_stream (aid : string) (body : Body) (st : Hook) : Hook :=
  match read_loop aid (body_chunks body) st with
  | (st', Return) => st'
  | (st', Continue) =>
      match body_failure body with
      | None => setAbortController None (setIsStreaming false st')
      | Some err => catch_block err st'
      end
  end.

(** [sendMessage(content)] *)
Definition sendMessage (API_BASE_URL : string) (env : Environment)
           (content : string) (st : Hook) : Hook :=
  let userMessage :=
    mkMessage ("msg_" +:+ Z_to_string (now_user env)) user content (now_user env)
              undefined None None None in
  let st := setMessages (fun prev => prev ++ [userMessage]) st in
  let st := setError null st in
  let st := setIsStreaming true st in
  let assistantMessageId := "msg_" +:+ Z_to_string (now_assistant env + 1) in
  let assistantMessage :=
    mkMessage assistantMessageId assistant "" (now_assistant env)
              (Some (JArr [])) None None (Some true) in
  let st := setMessages (fun prev => prev ++ [assistantMessage]) st in
  let st := setAbortController (Some NewAbortController) st in
  let st :=
    log_fetch (mkRequest (API_BASE_URL +:+ "/api/chat/stream") "POST"
                         [("Content-Type", "application/json")]
                         (JObj [("message", JStr content); ("use_context", JBool true)])) st in
  match fetch_outcome env with
  | FetchRejected err => catch_block err st
  | FetchResponse ok status body =>
      if negb ok then
        catch_block (mkException true "Error"
                       ("HTTP error! status: " +:+ Z_to_string status)) st
      else
        match body with
        | None => catch_block (mkException true "Error" "No response body") st
        | Some b => read_stream assistantMessageId b st
        end
  end.

End StreamingChat.


(* ================================================================= *)
(** ** [parseInt] *)

Module ParseInt.
Import JSString.

(** ASCII white space and line terminators. *)
Definition is_space (c : ascii) : bool :=
  let n := nat_of_ascii c in ((n =? 32) || ((9 <=? n) && (n <=? 13)))%nat.

(** The number of bytes of a leading non-ASCII white space character
    (U+00A0, U+1680, U+2000 to U+200A, U+2028, U+2029, U+202F, U+205F,
    U+3000, U+FEFF in UTF-8), or [0]. *)
Definition unicode_space_length (s : list ascii) : nat :=
  match s with
  | a :: b :: rest =>
      let x := nat_of_ascii a in
      let y := nat_of_ascii b in
      if ((x =? 194) && (y =? 160))%nat then 2%nat
      else
        match rest with
        | c :: _ =>
            let z := nat_of_ascii c in
            if ((x =? 225) && (y =? 154) && (z =? 128))%nat then 3%nat
            else if ((x =? 226) && (y =? 128)
                     && (((128 <=? z) && (z <=? 138)) || (z =? 168) || (z =? 169)
                         || (z =? 175)))%nat then 3%nat
            else if ((x =? 226) && (y =? 129) && (z =? 159))%nat then 3%nat
            else if ((x =? 227) && (y =? 128) && (z =? 128))%nat then 3%nat
            else if ((x =? 239) && (y =? 187) && (z =? 191))%nat then 3%nat
            else 0%nat
        | [] => 0%nat
        end
  | _ => 0%nat
  end.

(** The text without its leading white space. *)
Fixpoint trim_start (fuel : nat) (s : list ascii) : list ascii :=
  match fuel with
  | O => s
  | S f =>
      match s with
      | c :: r =>
          if is_space c then trim_start f r
          else
            match unicode_space_length s with
            | O => s
            | n => trim_start f (List.skipn n s)
            end
      | [] => []
      end
  end.

Definition hex_digit_value (c : ascii) : option Z :=
  let n := Z.of_nat (nat_of_ascii c) in
  if (48 <=? n) && (n <=? 57) then Some (n - 48)
  else if (65 <=? n) && (n <=? 70) then Some (n - 55)
  else if (97 <=? n) && (n <=? 102) then Some (n - 87)
  else None.

(** Value of the longest prefix of hexadecimal digits, [None] if empty. *)
Fixpoint hex_prefix_value (acc : option Z) (s : list ascii) : option Z :=
  match s with
  | c :: r =>
      match hex_digit_value c with
      | Some d => hex_prefix_value (Some (16 * default 0 acc + d)) r
      | None => acc
      end
  | [] => acc
  end.

(** An optional sign: its value and the text after it. *)
Definition read_sign (s : list ascii) : Z * list ascii :=
  match s with
  | c :: r =>
      if Ascii.eqb c "-" then (-1, r)
      else if Ascii.eqb c "+" then (1, r)
      else (1, s)
  | [] => (1, [])
  end.

(** Whether the text starts with [0x] or [0X]. *)
Definition hex_prefix (s : list ascii) : bool :=
  match s with
  | a :: b :: _ => Ascii.eqb a "0" && (Ascii.eqb b "x" || Ascii.eqb b "X")
  | _ => false
  end.

(** [parseInt(s)] without a radix: [None] is [NaN]; a negative zero is [0].
    The integer is the one the digits denote; the engine returns the double
    nearest to it, which is that integer up to [2 ^ 53] in absolute value,
    the range of what is stated about the number read
    (see [Exact.exact_integer]). *)
Definition parseInt (s : string) : option Z :=
  let str := trim_start (String.length s) (list_ascii_of_string s) in
  let '(sign, str) := read_sign str in
  if hex_prefix str then
    match hex_prefix_value None (List.skipn 2 str) with
    | Some v => Some (sign * v)
    | None => None
    end
  else
    match fst (span_digits str) with
    | [] => None
    | ds => Some (sign * decimal_value 0 ds)
    end.

End ParseInt.

(* ================================================================= *)
(** ** [components/CitationBadge.tsx] and [MessageBubble] *)

Module MessageBubble.
Import JSString JSON Types ParseInt.

(** A rendered badge: the [id] it shows and the [source] it holds. *)
Record Badge := mkBadge {
  badge_id : option Z;
  badge_source : option Source
}.

Definition number_label (id : option Z) : string :=
  match id with Some n => Z_to_string n | None => "NaN" end.

Definition page_label (p : Page) : string :=
  match p with PageNumber n => Z_to_string n | PageString s => s end.


(** The [title] attribute. *)
Definition badge_title (b : Badge) : string :=
  match badge_source b with
  | Some source =>
      "Source: " +:+ src_filename source +:+ ", Page " +:+ page_label (src_page source)
  | None => "Source " +:+ number_label (badge_id b)
  end.

(** The click handler, given whether the parent passed [onClick]: the source
    that [onClick] is called with, if it is called. *)
Definition badge_click (has_onClick : bool) (b : Badge) : option Source :=
  match badge_source b with
  | Some source => if has_onClick then Some source else None
  | None => None
  end.

Definition CitationBadge (id : option Z) (source : option Source) : Badge :=
  mkBadge id source.

(** [sources.find(s => s.id === id)] *)
Definition find_source (id : option Z) (sources : list Source) : option Source :=
  match id with
  | Some n => List.find (fun s => src_id s =? n) sources
  | None => None
  end.

Definition open_bracket : ascii := "["%char.
Definition close_bracket : ascii := "]"%char.

(** The pattern [\[(\d+)\]] tried at the start of [s]: the digits of the
    group and the text after the match. *)
Definition match_here (s : list ascii) : option (list ascii * list ascii) :=
  match s with
  | c :: t =>
      if Ascii.eqb c open_bracket then
        match span_digits t with
        | (d :: ds, c' :: r) =>
            if Ascii.eqb c' close_bracket then Some (d :: ds, r) else None
        | _ => None
        end
      else None
  | [] => None
  end.

(** The leftmost match in [s]: the text before it, the digits of the group,
    and the text after it. *)
Fixpoint search (s : list ascii) : option (list ascii * list ascii * list ascii) :=
  match s with
  | [] => None
  | c :: s' =>
      match match_here s with
      | Some (ds, r) => Some ([], ds, r)
      | None =>
          match search s' with
          | Some (pre, ds, r) => Some (c :: pre, ds, r)
          | None => None
          end
      end
  end.

Definition marker (ds : list ascii) : list ascii :=
  open_bracket :: ds ++ [close_bracket].

(** A match leaves less text than it was searched in: the recursions below
    are well founded on the length of the text. *)
Definition span_digits_shorter (u a b : list ascii) :
  span_digits u = (a, b) -> (List.length b <= List.length u)%nat.
Proof.
  revert a b; induction u as [|x u IH]; cbn [span_digits]; intros a b H.
  - inversion H; subst; cbn; lia.
  - destruct (is_digit x).
    + destruct (span_digits u) as [a' b'] eqn:E. inversion H; subst.
      specialize (IH _ _ eq_refl). cbn; lia.
    + inversion H; subst; cbn; lia.
Qed.

Definition search_shorter (s pre ds r : list ascii) :
  search s = Some (pre, ds, r) -> (List.length r < List.length s)%nat.
Proof.
  revert pre; induction s as [|c s IH]; intros pre e; [discriminate e|].
  cbn [search] in e.
  destruct (match_here (c :: s)) as [[ds' r']|] eqn:Hm.
  - inversion e; subst; clear e IH. cbn [match_here] in Hm.
    destruct (Ascii.eqb c open_bracket); [|discriminate Hm].
    destruct (span_digits s) as [a b] eqn:E.
    destruct a as [|d a]; [discriminate Hm|].
    destruct b as [|c' b]; [discriminate Hm|].
    destruct (Ascii.eqb c' close_bracket); [|discriminate Hm].
    inversion Hm; subst. apply span_digits_shorter in E. cbn in *; lia.
  - destruct (search s) as [[[p d] r']|]; [|discriminate e].
    inversion e; subst. specialize (IH _ eq_refl). cbn in *; lia.
Qed.

(** A value together with the equation that names it. *)
Definition inspect {A : Type} (x : A) : {y : A | x = y} := exist _ x eq_refl.

(** [content.split(/(\[\d+\])/g)]: the texts between the matches, with each
    match (the capture group) in between. *)
Equations? split_citations (s : list ascii) : list (list ascii)
  by wf (List.length s) lt :=
  split_citations s with inspect (search s) := {
    | exist _ None _ => [s]
    | exist _ (Some (pre, ds, r)) e => pre :: marker ds :: split_citations r
  }.
Proof. eapply search_shorter; eassumption. Qed.

(** [part.match(/\[(\d+)\]/)]: the group of the first match. *)
Definition match_group (part : list ascii) : option (list ascii) :=
  match search part with
  | Some (_, ds, _) => Some ds
  | None => None
  end.

Inductive Element :=
| ElemBadge (b : Badge)
| ElemSpan (text : string)
| ElemLink (href : option string).

(** [renderContent(content, sources)] of the first [MessageBubble]. *)
Definition renderContent (content : string) (sources : list Source) : list Element :=
  List.map (fun part =>
    match match_group part with
    | Some digits =>
        let id := parseInt (string_of_list_ascii digits) in
        let source := find_source id sources in
        ElemBadge (CitationBadge id source)
    | None => ElemSpan (string_of_list_ascii part)
    end) (split_citations (list_ascii_of_string content)).

Definition citation_link (ds : list ascii) : list ascii :=
  marker ds ++ list_ascii_of_string "(#citation-" ++ ds ++ list_ascii_of_string ")".

(** [content.replace(/\[(\d+)\]/g, '[$1](#citation-$1)')] *)
Equations? replace_citations (s : list ascii) : list ascii
  by wf (List.length s) lt :=
  replace_citations s with inspect (search s) := {
    | exist _ None _ => s
    | exist _ (Some (pre, ds, r)) e => pre ++ citation_link ds ++ replace_citations r
  }.
Proof. eapply search_shorter; eassumption. Qed.

(** [preprocessContent(content)] of the Markdown [MessageBubble]. *)
Definition preprocessContent (content : string) : string :=
  string_of_list_ascii (replace_citations (list_ascii_of_string content)).


End MessageBubble.

(* ================================================================= *)
(** ** [components/generative/ComponentRenderer] *)

Module ComponentRenderer.
Import JSON.

(** The imported components. *)
Inductive Component := Chart | DataTable | InfoCard.

(** What a property read on [componentRegistry] can give: one of the three
    entries of the literal, or a member that the object inherits from
    [Object.prototype]. *)
Inductive RegistryValue :=
| Registered (c : Component)
| Inherited (member : string).

(** The members of [Object.prototype]; each is a function or an object,
    hence truthy. *)
Definition Object_prototype : list string :=
  ["constructor"; "__proto__"; "hasOwnProperty"; "isPrototypeOf";
   "propertyIsEnumerable"; "toLocaleString"; "toString"; "valueOf";
   "__defineGetter__"; "__defineSetter__"; "__lookupGetter__"; "__lookupSetter__"].

(** [componentRegistry[name]]: the own properties first, then the prototype;
    [None] is [undefined]. *)
Definition componentRegistry (name : string) : option RegistryValue :=
  if String.eqb name "chart" then Some (Registered Chart)
  else if String.eqb name "table" then Some (Registered DataTable)
  else if String.eqb name "card" then Some (Registered InfoCard)
  else if existsb (String.eqb name) Object_prototype then Some (Inherited name)
  else None.

(** The element returned: [<Component {...props} />], or the placeholder
    that reads [Unknown component "name"]. *)
Inductive Rendered :=
| Element (type : RegistryValue) (props : jsval)
| UnknownComponent (name : string).

(** [ComponentRenderer({ name, props })]. Building the element does not
    throw, so the [catch] branch is never taken. *)
Definition ComponentRenderer (name : string) (props : jsval) : Rendered :=
  match componentRegistry name with
  | None => UnknownComponent name
  | Some component => Element component props
  end.

End ComponentRenderer.

(* ================================================================= *)
(** ** [ChatInterface]: [handleCitationClick] *)

Module ChatInterface.
Import JSString Types ParseInt.

Record PdfState := mkPdfState {
  isOpen : bool;
  url : option string;
  page : Z;
  highlight : option string
}.

(** [process.env.NEXT_PUBLIC_API_URL || 'http://localhost:8000'] *)
Definition baseUrl (NEXT_PUBLIC_API_URL : option string) : string :=
  match NEXT_PUBLIC_API_URL with
  | Some u => if String.eqb u "" then "http://localhost:8000" else u
  | None => "http://localhost:8000"
  end.

(** [x || 1] on the result of [parseInt]. *)
Definition or_one (x : option Z) : Z :=
  match x with
  | Some n => if n =? 0 then 1 else n
  | None => 1
  end.

(** The state that [handleCitationClick(source)] passes to [setPdfState]. *)
Definition handleCitationClick (NEXT_PUBLIC_API_URL : option string)
           (source : Source) : PdfState :=
  let pdfUrl := baseUrl NEXT_PUBLIC_API_URL +:+ "/api/pdfs/" +:+ src_pdf_id source +:+ "/file" in
  mkPdfState true (Some pdfUrl)
             (match src_page source with
              | PageNumber n => n
              | PageString s => or_one (parseInt s)
              end)
             (Some (src_text source)).

End ChatInterface.

(* ================================================================= *)
(** ** [components/DocumentUpload.tsx]: [handleFileUpload] *)

Module DocumentUpload.
Import JSString.

Record File := mkFile { file_name : string; file_size : Z }.

Inductive Status := uploading | processing | complete | error.

Record UploadProgress := mkUploadProgress {
  up_file : File;
  up_progress : Z;
  up_status : Status;
  up_error : option string
}.

(** What a timer does when it fires. *)
Inductive TimerCallback :=
| ClearProgressAndNotify      (* [setUploadProgress(null); onUploadComplete?.()] *)
| ClearProgress.              (* [setUploadProgress(null)] *)

(** The calls the handler makes, in order. *)
Inductive Effect :=
| Alert (message : string)
| SetUploadProgress (value : option UploadProgress)
| UploadDocument (file : File)
| SetTimeout (callback : TimerCallback) (delay : Z).

(** How [uploadDocument(file)] ends: it resolves, or it throws a value that
    is an [Error] with a message, or some other value. *)
Inductive UploadOutcome :=
| Resolved
| ThrewError (message : string)
| ThrewOther.

Record Upload := mkUpload {
  uploadProgress : option UploadProgress;
  effects : list Effect
}.

Definition perform (e : Effect) (st : Upload) : Upload :=
  mkUpload (uploadProgress st) (effects st ++ [e]).

(** [setUploadProgress(f)] with an updater function. *)
Definition setUploadProgress (f : option UploadProgress -> option UploadProgress)
           (st : Upload) : Upload :=
  let v := f (uploadProgress st) in
  mkUpload v (effects st ++ [SetUploadProgress v]).

(** [handleFileUpload(file)], up to the timers it sets. *)
Definition handleFileUpload (outcome : UploadOutcome) (file : File) (st : Upload) : Upload :=
  if negb (endsWith ".pdf" (toLowerCase (file_name file))) then
    perform (Alert "Only PDF files are allowed") st
  else if file_size file >? 10 * 1024 * 1024 then
    perform (Alert "File size must be less than 10MB") st
  else
    let st := setUploadProgress (fun _ => Some (mkUploadProgress file 0 uploading None)) st in
    let st := setUploadProgress (fun prev =>
                match prev with
                | Some p => Some (mkUploadProgress (up_file p) 30 (up_status p) (up_error p))
                | None => None
                end) st in
    let st := perform (UploadDocument file) st in
    match outcome with
    | Resolved =>
        let st := setUploadProgress (fun prev =>
                    match prev with
                    | Some p => Some (mkUploadProgress (up_file p) 100 complete (up_error p))
                    | None => None
                    end) st in
        perform (SetTimeout ClearProgressAndNotify 1500) st
    | ThrewError _ | ThrewOther =>
        let message := match outcome with
                       | ThrewError m => m
                       | _ => "Upload failed"
                       end in
        let st := setUploadProgress (fun prev =>
                    match prev with
                    | Some p => Some (mkUploadProgress (up_file p) (up_progress p) error
                                                       (Some message))
                    | None => None
                    end) st in
        perform (SetTimeout ClearProgress 3000) st
    end.

End DocumentUpload.

(* ================================================================= *)
(** ** Vocabulary of the statements about the stream *)

Module StreamSpec.
Import JSString JSON Types StreamingChat.

(** The event a line carries, if the reader takes it as one. *)
Definition line_event (line : string) : option json :=
  if startsWith "data: " line then JSON_parse (substring_from 6 line) else None.

(** The events of a sequence of chunks, in arrival order. *)
Definition events_of_chunks (chunks : list string) : list json :=
  omap line_event (concat (List.map split_newline chunks)).

Definition has_type (t : string) (data : json) : bool := is_string (prop data "type") t.

Definition is_text (data : json) : bool := has_type "text" data.

Definition is_terminal (data : json) : bool :=
  has_type "done" data || has_type "error" data.

(** The events before the first [done] or [error]. *)
Fixpoint before_terminal (events : list json) : list json :=
  match events with
  | [] => []
  | e :: rest => if is_terminal e then [] else e :: before_terminal rest
  end.

(** The events up to and including the first [done] or [error]. *)
Fixpoint through_terminal (events : list json) : list json :=
  match events with
  | [] => []
  | e :: rest => if is_terminal e then [e] else e :: through_terminal rest
  end.

(** The [content] field of a text event, as the client appends it. *)
Definition text_content (data : json) : string := toString (prop data "content").

(** The concatenation of the text events before the terminal event. *)
Definition streamed_text (events : list json) : string :=
  concat_strings (List.map text_content (List.filter is_text (before_terminal events))).

(** Handling every event of a list, one after the other. *)
Definition apply_events (aid : string) (events : list json) (st : Hook) : Hook :=
  fold_left (fun s e => fst (handle_data aid e s)) events st.

(** The reader run on a list of events instead of lines. *)
Fixpoint process_events (aid : string) (events : list json) (st : Hook) : Hook * Flow :=
  match events with
  | [] => (st, Continue)
  | e :: rest =>
      match handle_data aid e st with
      | (st', Return) => (st', Return)
      | (st', Continue) => process_events aid rest st'
      end
  end.

(** What an event does to a message that has the assistant's id. *)
Definition message_step (data : json) (msg : Message) : Message :=
  if has_type "text" data then
    with_content (msg_content msg +:+ toString (prop data "content")) msg
  else if has_type "tool_call" data then update_toolCalls data msg
  else if has_type "component" data then update_components data msg
  else if has_type "sources" data then with_sources (prop data "content") msg
  else if has_type "done" data then with_isStreaming false msg
  else msg.

(** What a list of events does to it. *)
Definition message_steps (events : list json) (msg : Message) : Message :=
  fold_left (fun m e => message_step e m) events msg.

(** The state after a [done] event. *)
Definition done_outcome (aid : string) (st : Hook) : Hook :=
  mkHook (List.map (fun msg => if String.eqb (msg_id msg) aid
                               then with_isStreaming false msg else msg) (messages st))
         false (error st) None (requests st).

(** The state after an [error] event. *)
Definition error_outcome (data : json) (st : Hook) : Hook :=
  mkHook (messages st) false (prop data "content") None (requests st).

(** A chunk that ends where a line ends. *)
Definition line_complete (chunk : string) : bool :=
  String.eqb chunk "" || endsWith (String newline "") chunk.

(** Every chunk but the last one ends where a line ends. *)
Definition line_aligned (chunks : list string) : Prop :=
  Forall (fun c => line_complete c = true) (removelast chunks).

(** No two entries of a tool-call list have the same name. *)
Definition distinct_names (tcs : list ToolCall) : Prop :=
  forall i j a b, i <> j -> tcs !! i = Some a -> tcs !! j = Some b ->
                  strict_eq (tc_name a) (tc_name b) = false.

Definition message_distinct_names (msg : Message) : Prop :=
  distinct_names (default [] (msg_toolCalls msg)).

(** The request that [sendMessage(content)] sends. *)
Definition chat_request (API_BASE_URL content : string) : Request :=
  mkRequest (API_BASE_URL +:+ "/api/chat/stream") "POST"
            [("Content-Type", "application/json")]
            (JObj [("message", JStr content); ("use_context", JBool true)]).

(** The state in which [sendMessage] starts to read the response. *)
Definition before_reading (API_BASE_URL : string) (env : Environment)
           (content : string) (st : Hook) : Hook :=
  mkHook ((messages st
             ++ [mkMessage ("msg_" +:+ Z_to_string (now_user env)) user content
                           (now_user env) undefined None None None])
            ++ [mkMessage ("msg_" +:+ Z_to_string (now_assistant env + 1)) assistant ""
                          (now_assistant env) (Some (JArr [])) None None (Some true)])
         true null (Some NewAbortController)
         (requests st ++ [chat_request API_BASE_URL content]).

(** A JSON text written with an apostrophe for each double quote. *)
Fixpoint payload (s : string) : string :=
  match s with
  | EmptyString => EmptyString
  | String c r => String (if Ascii.eqb c "'" then double_quote else c) (payload r)
  end.

(** A frame as the server writes it: the payload on a [data: ] line,
    followed by an empty line. *)
Definition frame (payload : string) : string :=
  "data: " +:+ payload +:+ String newline (String newline "").

(** An empty hook, as [useState] initialises it. *)
Definition initial_hook : Hook := mkHook [] false null None [].

(** The final messages do not depend on how the stream is cut into chunks. *)
Definition chunking_independent : Prop :=
  forall aid chunks1 chunks2 st,
    concat_strings chunks1 = concat_strings chunks2 ->
    messages (read_stream aid (mkBody chunks1 None) st)
    = messages (read_stream aid (mkBody chunks2 None) st).

End StreamSpec.

(* ================================================================= *)
(** ** Vocabulary of the statements about citation markers *)

Module CitationSpec.
Import JSString Types MessageBubble.

(** A non-empty sequence of decimal digits. *)
Definition digits (ds : list ascii) : Prop :=
  ds <> [] /\ forallb is_digit ds = true.

(** The text contains a marker [[n]]. *)
Definition has_marker (t : list ascii) : Prop :=
  exists pre ds post, t = pre ++ marker ds ++ post /\ digits ds.

(** The badge of the marker with digits [ds]: numbered with their value and
    holding the first source of that id, if there is one. *)
Definition badge_of (sources : list Source) (ds : list ascii) : Element :=
  let n := decimal_value 0 ds in
  ElemBadge (CitationBadge (Some n) (List.find (fun s => src_id s =? n) sources)).

(** [Rendering sources t els]: [els] shows the text [t] with every marker
    as its badge and the text between the markers as it is. *)
Inductive Rendering (sources : list Source) : list ascii -> list Element -> Prop :=
| Rendering_text t :
    ~ has_marker t ->
    Rendering sources t [ElemSpan (string_of_list_ascii t)]
| Rendering_marker t ds rest els :
    ~ has_marker t ->
    digits ds ->
    Rendering sources rest els ->
    Rendering sources (t ++ marker ds ++ rest)
              (ElemSpan (string_of_list_ascii t) :: badge_of sources ds :: els).

(** The [href] that stands for the marker with digits [ds]. *)
Definition citation_href (ds : list ascii) : string :=
  "#citation-" +:+ string_of_list_ascii ds.

(** The Markdown link to that target, with the marker as its text:
    [[n](#citation-n)]. *)
Definition citation_markdown (ds : list ascii) : list ascii :=
  marker ds ++ "("%char :: list_ascii_of_string (citation_href ds) ++ [")"%char].

(** [Preprocessed t out]: [out] is [t] with every marker [[n]] made the
    Markdown link to its target, and nothing else changed. *)
Inductive Preprocessed : list ascii -> list ascii -> Prop :=
| Preprocessed_text t :
    ~ has_marker t ->
    Preprocessed t t
| Preprocessed_marker t ds rest out :
    ~ has_marker t ->
    digits ds ->
    Preprocessed rest out ->
    Preprocessed (t ++ marker ds ++ rest) (t ++ citation_markdown ds ++ out).

(** A text that does not go on with a digit, nor with the [x] of a
    hexadecimal prefix. *)
Definition ends_number (rest : list ascii) : Prop :=
  match rest with
  | [] => True
  | c :: _ => is_digit c = false /\ c <> "x"%char /\ c <> "X"%char
  end.

End CitationSpec.

(* ================================================================= *)
(** ** [lib/useStreamingChat.ts]: [clearMessages], and what the views read *)

Module ChatHook.
Import JSString JSON Types StreamingChat StreamSpec.

(** [clearMessages()]: the cleared state, and whether [abort()] was called
    on a controller. *)
Definition clearMessages (st : Hook) : Hook * bool :=
  let st := setMessages (fun _ => []) st in
  let st := setError null st in
  match abortControllerRef st with
  | Some _ => (setAbortController None st, true)
  | None => (st, false)
  end.

(** What the [catch] block shows for an exception, when no error was
    shown before: nothing for an [AbortError] or for a value that is not an
    [Error]. *)
Definition shown_error (err : Exception) : jsval :=
  if exn_instanceof_Error err && negb (String.eqb (exn_name err) "AbortError")
  then Some (JStr (if String.eqb (exn_message err) "" then "Failed to connect"
                   else exn_message err))
  else null.

(** The [components] a list of events adds, in order. *)
Definition event_components (events : list json) : list GenerativeComponent :=
  List.map (fun e => mkComponent (prop e "name") (prop e "props"))
           (List.filter (has_type "component") (before_terminal events)).

(** The [content] of the last [sources] event of a list, if there is one. *)
Definition last_sources (events : list json) : option jsval :=
  match List.rev (List.filter (has_type "sources") (before_terminal events)) with
  | e :: _ => Some (prop e "content")
  | [] => None
  end.

(** Whether the first [done] or [error] event of a list is a [done]. *)
Fixpoint ends_with_done (events : list json) : bool :=
  match events with
  | [] => false
  | e :: rest => if is_terminal e then has_type "done" e else ends_with_done rest
  end.

(** A line that the reader passes over: no [data: ] prefix, no JSON after
    it, or a value whose [type] is none of the six. *)
Definition ignored_line (line : string) : bool :=
  match line_event line with
  | None => true
  | Some data =>
      negb (has_type "text" data || has_type "tool_call" data
            || has_type "component" data || has_type "sources" data
            || has_type "done" data || has_type "error" data)
  end.

End ChatHook.

(* ================================================================= *)
(** ** [ChatInterface]: layout, the typing indicator, closing the viewer *)

Module ChatLayout.
Import JSString Types StreamingChat ChatInterface MessageBubble.

Inductive LayoutMode := chat_only | split_view | pdf_only.

(** [layoutMode], from the viewer state and [useIsMobile()]. *)
Definition layoutMode (pdfState : PdfState) (isMobile : bool) : LayoutMode :=
  if negb (isOpen pdfState) then chat_only
  else if isMobile then pdf_only
  else split_view.

(** The animated [width] of the chat area, in percent. *)
Definition chat_width (mode : LayoutMode) : Z :=
  match mode with
  | chat_only => 100
  | split_view => 60
  | pdf_only => 0
  end.

(** Whether the chat area is displayed ([display: none] in [pdf-only]). *)
Definition chat_displayed (mode : LayoutMode) : bool :=
  match mode with pdf_only => false | _ => true end.

(** The [onClose] handed to the viewer. *)
Definition onClose (prev : PdfState) : PdfState :=
  mkPdfState false (url prev) (page prev) (highlight prev).

(** The initial viewer state. *)
Definition initial_pdfState : PdfState := mkPdfState false None 1 None.

(** The click on a badge inside a message: [onCitationClick] is
    [handleCitationClick], so [setPdfState] is called when the badge has a
    source, and nothing happens otherwise. *)
Definition click_badge (NEXT_PUBLIC_API_URL : option string) (b : Badge)
           (pdfState : PdfState) : PdfState :=
  match badge_click true b with
  | Some source => handleCitationClick NEXT_PUBLIC_API_URL source
  | None => pdfState
  end.

(** Whether the three bouncing dots are rendered: the list is not empty,
    the hook is streaming, and the last message is not the assistant's. *)
Definition typing_indicator (st : Hook) : bool :=
  match last (messages st) with
  | Some msg =>
      isStreaming st && match msg_role msg with assistant => false | user => true end
  | None => false
  end.

(** [handleUploadComplete] *)
Definition handleUploadComplete (documentRefresh : Z) : Z := documentRefresh + 1.

End ChatLayout.

(* ================================================================= *)
(** ** [PDFViewer]: page navigation *)

Module PDFViewer.
Import ChatInterface ChatLayout.

(** [numPages || 1] *)
Definition pages (numPages : option Z) : Z :=
  match numPages with
  | Some n => if n =? 0 then 1 else n
  | None => 1
  end.

(** The updater of the previous-page button. *)
Definition previousPage (prev : Z) : Z := Z.max (prev - 1) 1.

(** The updater of the next-page button. *)
Definition nextPage (numPages : option Z) (prev : Z) : Z :=
  Z.min (prev + 1) (pages numPages).

Definition previous_disabled (pageNumber : Z) : bool := pageNumber <=? 1.

Definition next_disabled (numPages : option Z) (pageNumber : Z) : bool :=
  pages numPages <=? pageNumber.

Inductive Click := ClickPrevious | ClickNext.

(** A click: a disabled button does nothing. *)
Definition click (numPages : option Z) (pageNumber : Z) (c : Click) : Z :=
  match c with
  | ClickPrevious =>
      if previous_disabled pageNumber then pageNumber else previousPage pageNumber
  | ClickNext =>
      if next_disabled numPages pageNumber then pageNumber else nextPage numPages pageNumber
  end.

Definition clicks (numPages : option Z) (pageNumber : Z) (cs : list Click) : Z :=
  fold_left (click numPages) cs pageNumber.

(** [isOpen && url]: whether the panel is rendered at all. *)
Definition panel_rendered (pdfState : PdfState) : bool :=
  isOpen pdfState
  && match url pdfState with
     | Some u => negb (String.eqb u "")
     | None => false
     end.

(** The width class of the panel, in percent: [w-[40%]] in split view,
    [w-full] otherwise. *)
Definition panel_width (mode : LayoutMode) : Z :=
  match mode with split_view => 40 | _ => 100 end.

End PDFViewer.

(* ================================================================= *)
(** ** [DocumentUpload]: the drop zone and the file input; [uploadDocument] *)

Module DropZone.
Import JSString JSON DocumentUpload.

(** The component state: [isDragging] and the upload state. *)
Record Zone := mkZone {
  isDragging : bool;
  upload : Upload
}.

(** [handleDrop(e)], with [e.dataTransfer.files] as a list. *)
Definition handleDrop (outcome : UploadOutcome) (files : list File) (st : Zone) : Zone :=
  match files with
  | file :: _ => mkZone false (handleFileUpload outcome file (upload st))
  | [] => mkZone false (upload st)
  end.

Definition handleDragOver (st : Zone) : Zone := mkZone true (upload st).

Definition handleDragLeave (st : Zone) : Zone := mkZone false (upload st).

(** [handleFileSelect(e)], with [e.target.files] ([None] is [null]). *)
Definition handleFileSelect (outcome : UploadOutcome) (files : option (list File))
           (st : Zone) : Zone :=
  match files with
  | Some (file :: _) => mkZone (isDragging st) (handleFileUpload outcome file (upload st))
  | _ => st
  end.

(** The uploads a state records. *)
Definition uploaded (st : Upload) : list File :=
  omap (fun e => match e with UploadDocument f => Some f | _ => None end) (effects st).

(** The test of both validations. *)
Definition valid_file (file : File) : bool :=
  endsWith ".pdf" (toLowerCase (file_name file)) && (file_size file <=? 10 * 1024 * 1024).

(** Whether a value is truthy. *)
Definition truthy (v : jsval) : bool :=
  match v with
  | None => false
  | Some JNull => false
  | Some (JBool b) => b
  | Some (JNum n) => negb (mant n =? 0)
  | Some (JStr s) => negb (String.eqb s "")
  | Some (JArr _) | Some (JObj _) => true
  end.

(** What the engine puts in the messages of its own errors: the
    [SyntaxError] of [response.json()] on a text, and the [TypeError] of
    reading [detail] on [null]. *)
Record Engine := mkEngine {
  syntax_error_message : string -> string;
  null_property_message : string
}.

(** How the request of [uploadDocument] ends: [fetch] rejects, or the
    server answers with a status that is [ok] or not, and a body. *)
Inductive UploadFetch :=
| UploadFetchRejected (outcome : UploadOutcome)
| UploadResponded (ok : bool) (body : string).

(** [uploadDocument(file)] (api client): how the call ends. *)
Definition uploadDocument (engine : Engine) (result : UploadFetch) : UploadOutcome :=
  match result with
  | UploadFetchRejected outcome => outcome
  | UploadResponded ok body =>
      if negb ok then
        let errorData := match JSON_parse body with
                         | Some v => v
                         | None => JObj []
                         end in
        match errorData with
        | JNull => ThrewError (null_property_message engine)
        | _ =>
            let detail := prop errorData "detail" in
            if truthy detail then ThrewError (toString detail)
            else ThrewError "Failed to upload document"
        end
      else
        match JSON_parse body with
        | Some _ => Resolved
        | None => ThrewError (syntax_error_message engine body)
        end
  end.

End DropZone.

(* ================================================================= *)
(** ** [DocumentList]: [fetchDocuments] and [handleDelete] *)

Module DocumentList.
Import JSString.

(** The fields of [Document] that the list uses. *)
Record Document := mkDocument {
  doc_id : string;
  doc_original_filename : string;
  doc_file_size : Z;
  doc_page_count : Z
}.

Record ListState := mkList {
  documents : list Document;
  loading : bool;
  list_error : option string;
  deletingId : option string;
  alerts : list string
}.

(** How a call of the api client ends: with a value, with an [Error] and
    its message, or with another thrown value. *)
Inductive Outcome (A : Type) :=
| Returned (value : A)
| FailedWith (message : string)
| FailedOther.
Arguments Returned {A} value.
Arguments FailedWith {A} message.
Arguments FailedOther {A}.

(** [fetchDocuments()] *)
Definition fetchDocuments (outcome : Outcome (list Document)) (st : ListState) : ListState :=
  match outcome with
  | Returned docs => mkList docs false None (deletingId st) (alerts st)
  | FailedWith m => mkList (documents st) false (Some m) (deletingId st) (alerts st)
  | FailedOther =>
      mkList (documents st) false (Some "Failed to load documents") (deletingId st) (alerts st)
  end.

(** [handleDelete(docId)], given the answer to [confirm] and how
    [deleteDocument] ends. *)
Definition handleDelete (confirmed : bool) (outcome : Outcome unit) (docId : string)
           (st : ListState) : ListState :=
  if negb confirmed then st
  else
    match outcome with
    | Returned _ =>
        mkList (List.filter (fun doc => negb (String.eqb (doc_id doc) docId)) (documents st))
               (loading st) (list_error st) None (alerts st)
    | FailedWith m =>
        mkList (documents st) (loading st) (list_error st) None (alerts st ++ [m])
    | FailedOther =>
        mkList (documents st) (loading st) (list_error st) None
               (alerts st ++ ["Failed to delete document"])
    end.

End DocumentList.

(* ================================================================= *)
(** ** [lib/utils]: [formatTimestamp] *)

Module Utils.
Import JSString.

(** What the [Date] of the platform gives for a time in milliseconds, in the
    local time zone and the [en-US] locale. *)
Record Calendar := mkCalendar {
  getFullYear : Z -> Z;
  getMonth : Z -> Z;
  getDate : Z -> Z;
  previous_day : Z -> Z;          (* [setDate(getDate() - 1)] *)
  toLocaleTimeString : Z -> string;
  weekday_short : Z -> string;
  month_day : Z -> string
}.

(** [isSameDay(date1, date2)] *)
Definition isSameDay (cal : Calendar) (date1 date2 : Z) : bool :=
  (getFullYear cal date1 =? getFullYear cal date2)
  && (getMonth cal date1 =? getMonth cal date2)
  && (getDate cal date1 =? getDate cal date2).

(** [formatTimestamp(date)] at the time [now]. *)
Definition formatTimestamp (cal : Calendar) (now date : Z) : string :=
  let diffInSeconds := (now - date) / 1000 in
  if diffInSeconds <? 60 then "Just now"
  else
    let diffInMinutes := diffInSeconds / 60 in
    if diffInMinutes <? 60 then Z_to_string diffInMinutes +:+ "m ago"
    else
      let diffInHours := diffInMinutes / 60 in
      if diffInHours <? 24 then Z_to_string diffInHours +:+ "h ago"
      else if isSameDay cal date now then toLocaleTimeString cal date
      else if isSameDay cal date (previous_day cal now) then "Yesterday"
      else
        let diffInDays := diffInHours / 24 in
        if diffInDays <? 7 then weekday_short cal date
        else month_day cal date.

End Utils.

(* ================================================================= *)
(** ** [InputBox]: [handleSend] and [handleKeyDown] *)

Module InputBox.
Import JSString JSON StreamingChat ParseInt.

(** The white space at the start of a text, removed. *)
Definition trimStart (s : list ascii) : list ascii := trim_start (List.length s) s.

(** The white space at the end of a text, removed: the text is cut where
    what follows is white space only (a character of a well-formed UTF-8
    text never ends in the bytes of a white space character). *)
Fixpoint trimEnd (s : list ascii) : list ascii :=
  match s with
  | [] => []
  | c :: r =>
      match trimStart s with
      | [] => []
      | _ :: _ => c :: trimEnd r
      end
  end.

(** [s.trim()] *)
Definition trim (s : string) : string :=
  string_of_list_ascii (trimEnd (trimStart (list_ascii_of_string s))).

(** The fields of the keyboard event that the handler reads. *)
Record KeyboardEvent := mkKeyboardEvent {
  key : string;
  shiftKey : bool
}.

(** [handleSend()]: the argument of [onSend] when it is called, and the
    input afterwards. *)
Definition handleSend (disabled : bool) (input : string) : option string * string :=
  let trimmedInput := trim input in
  if negb (String.eqb trimmedInput "") && negb disabled then (Some trimmedInput, "")
  else (None, input).

(** [handleKeyDown(e)] *)
Definition handleKeyDown (e : KeyboardEvent) (disabled : bool) (input : string)
  : option string * string :=
  if String.eqb (key e) "Enter" && negb (shiftKey e) then handleSend disabled input
  else (None, input).

(** A key pressed in the input box of [ChatInterface], which renders it with
    [onSend = handleSendMessage] and [disabled = isStreaming]. *)
Definition key_down (API_BASE_URL : string) (env : Environment) (e : KeyboardEvent)
           (st : string * Hook) : string * Hook :=
  let '(input, hook) := st in
  let '(sent, input') := handleKeyDown e (isStreaming hook) input in
  (input',
   match sent with
   | Some content => sendMessage API_BASE_URL env content hook
   | None => hook
   end).

End InputBox.

(* ================================================================= *)
(** ** The api client: [apiFetch], [getDocuments], [deleteDocument] *)

Module ApiClient.
Import JSString JSON DropZone DocumentList.

(** What a rejected [fetch] or a [throw] carries: a [TypeError], another
    [Error], or a value that is no [Error]. *)
Inductive Thrown :=
| ThrownTypeError (message : string)
| ThrownError (message : string)
| ThrownOther.

(** How the request ends: [fetch] rejects, or the server answers. *)
Inductive FetchResult :=
| Rejected (thrown : Thrown)
| Responded (ok : bool) (status : Z) (statusText : string) (body : string).

(** The [catch (error)] block of [apiFetch]. *)
Definition apiFetch_catch (API_BASE_URL : string) (thrown : Thrown) : Outcome json :=
  match thrown with
  | ThrownTypeError m =>
      if String.eqb m "Failed to fetch" then
        FailedWith ("Unable to connect to backend server. Make sure it is running on "
                    +:+ API_BASE_URL)
      else FailedWith m
  | ThrownError m => FailedWith m
  | ThrownOther => FailedOther
  end.

(** [apiFetch(endpoint, options)]: how the call ends. *)
Definition apiFetch (engine : Engine) (API_BASE_URL : string) (result : FetchResult)
  : Outcome json :=
  match result with
  | Rejected thrown => apiFetch_catch API_BASE_URL thrown
  | Responded ok status statusText body =>
      if negb ok then
        let errorData := match JSON_parse body with
                         | Some v => v
                         | None => JObj []
                         end in
        match errorData with
        | JNull => apiFetch_catch API_BASE_URL (ThrownTypeError (null_property_message engine))
        | _ =>
            let detail := prop errorData "detail" in
            apiFetch_catch API_BASE_URL
              (ThrownError (if truthy detail then toString detail
                            else "HTTP " +:+ Z_to_string status +:+ ": " +:+ statusText))
        end
      else
        match JSON_parse body with
        | Some v => Returned v
        | None => apiFetch_catch API_BASE_URL (ThrownError (syntax_error_message engine body))
        end
  end.

Definition map_outcome {A B : Type} (f : A -> B) (o : Outcome A) : Outcome B :=
  match o with
  | Returned v => Returned (f v)
  | FailedWith m => FailedWith m
  | FailedOther => FailedOther
  end.

(** [getDocuments()] followed by the reading of [response.documents] in
    [fetchDocuments], which the component takes as a list of documents. On
    the response [null] the reading throws a [TypeError], inside the [try]
    of [fetchDocuments]. *)
Definition getDocuments (as_documents : jsval -> list Document)
           (engine : Engine) (API_BASE_URL : string) (result : FetchResult)
  : Outcome (list Document) :=
  match apiFetch engine API_BASE_URL result with
  | Returned JNull => FailedWith (null_property_message engine)
  | Returned response => Returned (as_documents (prop response "documents"))
  | FailedWith m => FailedWith m
  | FailedOther => FailedOther
  end.

(** [deleteDocument(docId)], whose value the component drops. *)
Definition deleteDocument (engine : Engine) (API_BASE_URL : string) (result : FetchResult)
  : Outcome unit :=
  map_outcome (fun _ => tt) (apiFetch engine API_BASE_URL result).

(** The answers on which [apiFetch] returns: an ok status with a JSON body. *)
Definition succeeds (result : FetchResult) : bool :=
  match result with
  | Responded true _ _ body =>
      match JSON_parse body with
      | Some _ => true
      | None => false
      end
  | _ => false
  end.

End ApiClient.

(* ================================================================= *)
(** ** The timers of [DocumentUpload] in [ChatInterface] *)

Module UploadTimers.
Import JSString DocumentUpload ChatLayout.

(** The timers that the calls of a state have set, in order. *)
Definition timers (st : Upload) : list TimerCallback :=
  omap (fun e => match e with SetTimeout callback _ => Some callback | _ => None end)
       (effects st).

(** A timer fires, on the upload state and the [documentRefresh] of
    [ChatInterface], which passes [handleUploadComplete] as
    [onUploadComplete]. *)
Definition fire (st : Upload * Z) (callback : TimerCallback) : Upload * Z :=
  match callback with
  | ClearProgressAndNotify =>
      (setUploadProgress (fun _ => None) (fst st), handleUploadComplete (snd st))
  | ClearProgress => (setUploadProgress (fun _ => None) (fst st), snd st)
  end.

(** [handleFileUpload(file)] on a state without timers, and then the timers
    it has set. *)
Definition upload_and_wait (outcome : UploadOutcome) (file : File) (st : Upload * Z)
  : Upload * Z :=
  let after := handleFileUpload outcome file (mkUpload (uploadProgress (fst st)) []) in
  fold_left fire (timers after) (after, snd st).

End UploadTimers.

(* ================================================================= *)
(** ** The values on which the coercions are exact *)

Module Exact.
Import JSString JSON Types StreamingChat StreamSpec MessageBubble CitationSpec.

(** The parsed values that [+] with a string and [new Error(v)] turn into
    the text [json_toString] gives. A number is left out, since the engine
    prints the double nearest to the literal; so is an object with a member
    named [toString] of its own, and an array that holds such a value, on
    which the conversion throws a [TypeError]. *)
Fixpoint coercible (v : json) : bool :=
  match v with
  | JNull | JBool _ | JStr _ => true
  | JNum _ => false
  | JArr l => forallb coercible l
  | JObj members => negb (existsb (fun kv => String.eqb (fst kv) "toString") members)
  end.

Definition coercible_value (v : jsval) : bool :=
  match v with
  | None => true
  | Some j => coercible j
  end.

(** The text events of a list carry a [content] of that kind. *)
Definition coercible_texts (events : list json) : bool :=
  forallb (fun e => coercible_value (prop e "content")) (List.filter is_text events).

(** An event whose [name] is not a number: [===] on two numbers compares
    doubles, which two different literals can share. *)
Definition exact_name (data : json) : bool :=
  match prop data "name" with
  | Some (JNum _) => false
  | _ => true
  end.

(** The same for the [tool_call] events of a list. *)
Definition exact_names (events : list json) : bool :=
  forallb exact_name (List.filter (has_type "tool_call") events).

(** The tool-call list after an event, in the words of the specification: the entry
    that has the name of the event is replaced where it stands, and when
    no entry has the name the new entry is appended. *)
Fixpoint upsert (new : ToolCall) (tcs : list ToolCall) : list ToolCall :=
  match tcs with
  | [] => [new]
  | tc :: rest =>
      if strict_eq (tc_name tc) (tc_name new) then new :: rest
      else tc :: upsert new rest
  end.

(** The state after a [tool_call] event, by that wording: only the
    tool-call list of the assistant message changes. *)
Definition tool_call_outcome (aid : string) (data : json) (st : Hook) : Hook :=
  mkHook (List.map (fun msg =>
            if String.eqb (msg_id msg) aid
            then with_toolCalls
                   (upsert (mkToolCall (prop data "name") (prop data "status"))
                           (default [] (msg_toolCalls msg))) msg
            else msg) (messages st))
         (isStreaming st) (error st) (abortControllerRef st) (requests st).

(** The integers that a double holds exactly, up to [2 ^ 53]. *)
Definition MAX_EXACT_INTEGER : Z := 9007199254740992.

Definition exact_integer (n : Z) : Prop := Z.abs n <= MAX_EXACT_INTEGER.


End Exact.

(* ================================================================= *)
(** * Properties *)

(** ** Strings *)

Section Strings.
Import JSString.

Lemma append_cons (c : ascii) (a b : string) : String c a +:+ b = String c (a +:+ b).
Proof. reflexivity. Qed.

Lemma append_nil_l (s : string) : "" +:+ s = s.
Proof. reflexivity. Qed.

Lemma append_nil_r (s : string) : s +:+ "" = s.
Proof.
  induction s as [|c s IH]; [reflexivity|]. now rewrite append_cons, IH.
Qed.

Lemma append_assoc (a b c : string) : (a +:+ b) +:+ c = a +:+ (b +:+ c).
Proof.
  induction a as [|x a IH]; [reflexivity|]. now rewrite !append_cons, IH.
Qed.

Lemma concat_strings_app (l1 l2 : list string) :
  concat_strings (l1 ++ l2) = concat_strings l1 +:+ concat_strings l2.
Proof.
  induction l1 as [|x l1 IH]; cbn [concat_strings fold_right app]; [reflexivity|].
  fold (concat_strings (l1 ++ l2)); fold (concat_strings l1).
  now rewrite IH, append_assoc.
Qed.

Lemma split_newline_nonempty (s : string) : split_newline s <> [].
Proof.
  destruct s as [|c s]; cbn; [discriminate|].
  destruct (Ascii.eqb c newline); [discriminate|].
  destruct (split_newline s); discriminate.
Qed.

(** Lines of a text cut after a line feed: the lines of both halves. *)
Lemma split_newline_break (a b : string) :
  split_newline (a +:+ String newline b) = split_newline a ++ split_newline b.
Proof.
  induction a as [|c a IH].
  - rewrite append_nil_l. cbn. now rewrite Ascii.eqb_refl.
  - rewrite append_cons. cbn [split_newline].
    destruct (Ascii.eqb c newline).
    + now rewrite IH.
    + rewrite IH. destruct (split_newline a) as [|l ls] eqn:E.
      * now apply split_newline_nonempty in E.
      * reflexivity.
Qed.

Lemma substring_from_suffix (n : nat) (s : string) :
  exists a, s = a +:+ substring_from n s.
Proof.
  revert s; induction n as [|n IH]; intros s.
  - exists ""; reflexivity.
  - destruct s as [|c s]; [exists ""; reflexivity|].
    destruct (IH s) as [a Ha]. exists (String c a).
    rewrite append_cons. cbn [substring_from]. now rewrite <- Ha.
Qed.

Lemma endsWith_suffix (suffix s : string) :
  endsWith suffix s = true -> exists a, s = a +:+ suffix.
Proof.
  unfold endsWith. intros H. apply andb_prop in H as [_ H].
  apply String.eqb_eq in H.
  destruct (substring_from_suffix (String.length s - String.length suffix) s) as [a Ha].
  exists a. now rewrite H in Ha.
Qed.

End Strings.

(** ** The reader of [useStreamingChat] *)

Section Reader.
Import JSString JSON Types StreamingChat StreamSpec.

Lemma process_lines_app aid (l1 l2 : list string) st :
  process_lines aid (l1 ++ l2) st =
  match process_lines aid l1 st with
  | (st', Return) => (st', Return)
  | (st', Continue) => process_lines aid l2 st'
  end.
Proof.
  revert st; induction l1 as [|x l1 IH]; intros st; cbn; [reflexivity|].
  destruct (process_line aid x st) as [st' []]; [apply IH | reflexivity].
Qed.

(** The chunks are read as the sequence of their lines. *)
Lemma read_loop_lines aid chunks st :
  read_loop aid chunks st = process_lines aid (concat (List.map split_newline chunks)) st.
Proof.
  revert st; induction chunks as [|c chunks IH]; intros st; cbn; [reflexivity|].
  rewrite process_lines_app.
  destruct (process_lines aid (split_newline c) st) as [st' []]; [apply IH | reflexivity].
Qed.

(** The lines are read as the sequence of the events they carry. *)
Lemma process_lines_events aid lines st :
  process_lines aid lines st = process_events aid (omap line_event lines) st.
Proof.
  revert st; induction lines as [|l lines IH]; intros st; cbn; [reflexivity|].
  unfold process_line, line_event.
  destruct (startsWith "data: " l); [|apply IH].
  destruct (JSON_parse (substring_from 6 l)) as [d|]; [|apply IH].
  cbn. destruct (handle_data aid d st) as [st' []]; [apply IH | reflexivity].
Qed.

Lemma read_loop_events aid chunks st :
  read_loop aid chunks st = process_events aid (events_of_chunks chunks) st.
Proof. rewrite read_loop_lines. apply process_lines_events. Qed.

Lemma is_string_eq v a : is_string v a = true -> v = Some (JStr a).
Proof.
  destruct v as [[]|]; cbn; try discriminate.
  intros H; apply String.eqb_eq in H; now subst.
Qed.

Lemma has_type_unique a b data :
  has_type a data = true -> has_type b data = true -> a = b.
Proof.
  unfold has_type; intros Ha Hb.
  apply is_string_eq in Ha, Hb. congruence.
Qed.

Lemma has_type_other a b data :
  a <> b -> has_type a data = true -> has_type b data = false.
Proof.
  intros Hne Ha. destruct (has_type b data) eqn:Hb; [|reflexivity].
  exfalso; apply Hne; eapply has_type_unique; eauto.
Qed.

(** Each branch of [handle_data] in turn; [handle_data_cases] opens them. *)
Ltac type_cases data :=
  unfold handle_data, message_step, is_terminal, is_text;
  fold (has_type "text" data); fold (has_type "tool_call" data);
  fold (has_type "component" data); fold (has_type "sources" data);
  fold (has_type "done" data); fold (has_type "error" data);
  destruct (has_type "text" data) eqn:Htext;
  [| destruct (has_type "tool_call" data) eqn:Htool;
     [| destruct (has_type "component" data) eqn:Hcomp;
        [| destruct (has_type "sources" data) eqn:Hsrc;
           [| destruct (has_type "done" data) eqn:Hdone;
              [| destruct (has_type "error" data) eqn:Herr ]]]]].

Lemma has_type_null t : has_type t JNull = false.
Proof. reflexivity. Qed.

Lemma map_if_same {A} (p : A -> bool) (l : list A) :
  List.map (fun x => if p x then x else x) l = l.
Proof. induction l as [|x l IH]; cbn; [reflexivity|]. rewrite IH. now destruct (p x). Qed.

(** The effect of one event on the state, field by field. *)
Lemma handle_data_spec aid data st :
  handle_data aid data st =
  (if has_type "done" data then done_outcome aid st
   else if has_type "error" data then error_outcome data st
   else mkHook (List.map (fun msg => if String.eqb (msg_id msg) aid
                                     then message_step data msg else msg) (messages st))
               (isStreaming st) (error st) (abortControllerRef st) (requests st),
   if is_terminal data then Return else Continue).
Proof.
  destruct st as [ms s e a r].
  destruct data; try (cbn; rewrite map_if_same; reflexivity).
  type_cases (JObj members); cbn;
    try rewrite (has_type_other "text" "done") by (discriminate || assumption);
    try rewrite (has_type_other "text" "error") by (discriminate || assumption);
    try rewrite (has_type_other "tool_call" "done") by (discriminate || assumption);
    try rewrite (has_type_other "tool_call" "error") by (discriminate || assumption);
    try rewrite (has_type_other "component" "done") by (discriminate || assumption);
    try rewrite (has_type_other "component" "error") by (discriminate || assumption);
    try rewrite (has_type_other "sources" "done") by (discriminate || assumption);
    try rewrite (has_type_other "sources" "error") by (discriminate || assumption);
    try rewrite Hdone; try rewrite Herr; cbn; try reflexivity.
  now rewrite map_if_same.
Qed.

(** The reader on one text frame, whole and cut in two. *)
Example parse_text_event :
  JSON_parse (payload "{'type':'text','content':'Hi [1]'}")
  = Some (JObj [("type", JStr "text"); ("content", JStr "Hi [1]")]).
Proof. reflexivity. Qed.

Example parse_cut_event : JSON_parse (payload "{'type':'te") = None.
Proof. reflexivity. Qed.

Example whole_frame_is_delivered :
  List.map msg_content
    (messages (read_stream "msg_1"
                 (mkBody [frame (payload "{'type':'text','content':'Hi'}")] None)
                 (before_reading "" (mkEnvironment 0 0 (FetchResponse true 200 None))
                                 "q" initial_hook)))
  = ["q"; "Hi"].
Proof. reflexivity. Qed.

Example cut_frame_is_dropped :
  List.map msg_content
    (messages (read_stream "msg_1"
                 (mkBody [payload "data: {'type':'te";
                          payload "xt','content':'Hi'}" +:+ String newline (String newline "")]
                         None)
                 (before_reading "" (mkEnvironment 0 0 (FetchResponse true 200 None))
                                 "q" initial_hook)))
  = ["q"; ""].
Proof. reflexivity. Qed.

End Reader.

Section Events.
Import JSString JSON Types StreamingChat StreamSpec.

Lemma handle_data_flow aid data st :
  snd (handle_data aid data st) = if is_terminal data then Return else Continue.
Proof. now rewrite handle_data_spec. Qed.

(** The loop handles the events through the first terminal one, and leaves
    with [return] exactly when there is one. *)
Lemma process_events_through aid events st :
  process_events aid events st =
  (apply_events aid (through_terminal events) st,
   if existsb is_terminal events then Return else Continue).
Proof.
  revert st; induction events as [|e events IH]; intros st; [reflexivity|].
  cbn [process_events through_terminal existsb].
  pose proof (handle_data_flow aid e st) as Hf.
  destruct (handle_data aid e st) as [st' f] eqn:E. cbn in Hf. subst f.
  destruct (is_terminal e); cbn [orb].
  - unfold apply_events; cbn. now rewrite E.
  - rewrite IH. unfold apply_events; cbn. now rewrite E.
Qed.

Lemma through_terminal_first (pre post : list json) t :
  forallb (fun e => negb (is_terminal e)) pre = true ->
  is_terminal t = true ->
  through_terminal (pre ++ t :: post) = pre ++ [t]
  /\ before_terminal (pre ++ t :: post) = pre
  /\ existsb is_terminal (pre ++ t :: post) = true.
Proof.
  intros Hpre Ht. induction pre as [|e pre IH]; cbn.
  - now rewrite Ht.
  - cbn in Hpre. apply andb_prop in Hpre as [He Hpre].
    apply negb_true_iff in He. rewrite He. cbn.
    destruct (IH Hpre) as (H1 & H2 & H3). rewrite H1, H2, H3. auto.
Qed.

Lemma apply_events_app aid (l1 l2 : list json) st :
  apply_events aid (l1 ++ l2) st = apply_events aid l2 (apply_events aid l1 st).
Proof. unfold apply_events. apply fold_left_app. Qed.

Lemma message_step_id data msg : msg_id (message_step data msg) = msg_id msg.
Proof.
  unfold message_step, update_toolCalls, update_components.
  repeat match goal with |- context [if ?b then _ else _] => destruct b end; reflexivity.
Qed.

Lemma message_step_role data msg : msg_role (message_step data msg) = msg_role msg.
Proof.
  unfold message_step, update_toolCalls, update_components.
  repeat match goal with |- context [if ?b then _ else _] => destruct b end; reflexivity.
Qed.

(** Only a text event changes the content of a message. *)
Lemma message_step_content data msg :
  msg_content (message_step data msg) =
  if is_text data then msg_content msg +:+ text_content data else msg_content msg.
Proof.
  unfold message_step, is_text, update_toolCalls, update_components.
  repeat match goal with |- context [if ?b then _ else _] => destruct b end; reflexivity.
Qed.

Lemma message_steps_id events msg : msg_id (message_steps events msg) = msg_id msg.
Proof.
  revert msg; induction events as [|e events IH]; intros msg; [reflexivity|].
  cbn. unfold message_steps in IH. now rewrite IH, message_step_id.
Qed.

Lemma message_steps_role events msg : msg_role (message_steps events msg) = msg_role msg.
Proof.
  revert msg; induction events as [|e events IH]; intros msg; [reflexivity|].
  cbn. unfold message_steps in IH. now rewrite IH, message_step_role.
Qed.

Lemma message_steps_content events msg :
  msg_content (message_steps events msg) =
  msg_content msg +:+ concat_strings (List.map text_content (List.filter is_text events)).
Proof.
  revert msg; induction events as [|e events IH]; intros msg.
  - cbn. now rewrite append_nil_r.
  - cbn [message_steps fold_left List.filter]. unfold message_steps in IH.
    rewrite IH, message_step_content.
    destruct (is_text e); [|reflexivity].
    cbn [List.map concat_strings fold_right]. now rewrite append_assoc.
Qed.

(** The messages after one event. *)
Lemma handle_data_messages aid data st :
  messages (fst (handle_data aid data st)) =
  List.map (fun msg => if String.eqb (msg_id msg) aid then message_step data msg else msg)
           (messages st).
Proof.
  rewrite handle_data_spec. cbn [fst].
  destruct (has_type "done" data) eqn:Hd.
  - cbn. apply List.map_ext. intros m. destruct (String.eqb (msg_id m) aid); [|reflexivity].
    unfold message_step.
    rewrite (has_type_other "done" "text"), (has_type_other "done" "tool_call"),
      (has_type_other "done" "component"), (has_type_other "done" "sources"), Hd
      by (discriminate || assumption).
    reflexivity.
  - destruct (has_type "error" data) eqn:He; [|reflexivity].
    cbn. rewrite <- (map_if_same (fun m => String.eqb (msg_id m) aid) (messages st)) at 1.
    apply List.map_ext. intros m. destruct (String.eqb (msg_id m) aid); [|reflexivity].
    unfold message_step.
    rewrite (has_type_other "error" "text"), (has_type_other "error" "tool_call"),
      (has_type_other "error" "component"), (has_type_other "error" "sources"), Hd
      by (discriminate || assumption).
    reflexivity.
Qed.

(** The messages after a list of events. *)
Lemma apply_events_messages aid events st :
  messages (apply_events aid events st) =
  List.map (fun msg => if String.eqb (msg_id msg) aid then message_steps events msg else msg)
           (messages st).
Proof.
  revert st; induction events as [|e events IH]; intros st.
  - cbn. now rewrite map_if_same.
  - unfold apply_events in *. cbn [fold_left]. rewrite IH, handle_data_messages.
    rewrite List.map_map. apply List.map_ext. intros m.
    destruct (String.eqb (msg_id m) aid) eqn:E; [|now rewrite E].
    now rewrite message_step_id, E.
Qed.

Lemma filter_text_through events :
  List.filter is_text (through_terminal events) = List.filter is_text (before_terminal events).
Proof.
  induction events as [|e events IH]; [reflexivity|].
  cbn [through_terminal before_terminal].
  destruct (is_terminal e) eqn:Ht.
  - cbn. unfold is_terminal in Ht. apply orb_prop in Ht as [Ht|Ht]; unfold is_text.
    + now rewrite (has_type_other "done" "text" e) by (discriminate || assumption).
    + now rewrite (has_type_other "error" "text" e) by (discriminate || assumption).
  - cbn. now rewrite IH.
Qed.

(** The content of every message after the loop: what was there, followed
    by the streamed text for a message with the assistant's id. *)
Lemma read_loop_content aid chunks st :
  List.map msg_content (messages (fst (read_loop aid chunks st))) =
  List.map (fun msg => if String.eqb (msg_id msg) aid
                       then msg_content msg +:+ streamed_text (events_of_chunks chunks)
                       else msg_content msg) (messages st).
Proof.
  rewrite read_loop_events, process_events_through. cbn [fst].
  rewrite apply_events_messages, List.map_map. apply List.map_ext. intros m.
  destruct (String.eqb (msg_id m) aid); [|reflexivity].
  rewrite message_steps_content. unfold streamed_text. now rewrite filter_text_through.
Qed.

Lemma catch_block_messages err st : messages (catch_block err st) = messages st.
Proof. unfold catch_block. now destruct (_ && _). Qed.

Lemma read_stream_messages aid body st :
  messages (read_stream aid body st) = messages (fst (read_loop aid (body_chunks body) st)).
Proof.
  unfold read_stream. destruct (read_loop aid (body_chunks body) st) as [st' []]; cbn.
  - destruct (body_failure body); [apply catch_block_messages | reflexivity].
  - reflexivity.
Qed.

End Events.

Section SendMessage.
Import JSString JSON Types StreamingChat StreamSpec.

Lemma handle_data_requests aid data st :
  requests (fst (handle_data aid data st)) = requests st.
Proof.
  rewrite handle_data_spec. cbn [fst].
  destruct (has_type "done" data); [reflexivity|].
  destruct (has_type "error" data); reflexivity.
Qed.

Lemma apply_events_requests aid events st :
  requests (apply_events aid events st) = requests st.
Proof.
  revert st; induction events as [|e events IH]; intros st; [reflexivity|].
  unfold apply_events in *. cbn [fold_left]. now rewrite IH, handle_data_requests.
Qed.

Lemma catch_block_requests err st : requests (catch_block err st) = requests st.
Proof. unfold catch_block. now destruct (_ && _). Qed.

Lemma read_stream_requests aid body st :
  requests (read_stream aid body st) = requests st.
Proof.
  unfold read_stream. rewrite read_loop_events, process_events_through.
  destruct (existsb is_terminal _).
  - apply apply_events_requests.
  - destruct (body_failure body).
    + now rewrite catch_block_requests, apply_events_requests.
    + cbn. apply apply_events_requests.
Qed.

Lemma sendMessage_reads API_BASE_URL env content st status body :
  fetch_outcome env = FetchResponse true status (Some body) ->
  sendMessage API_BASE_URL env content st =
  read_stream ("msg_" +:+ Z_to_string (now_assistant env + 1)) body
              (before_reading API_BASE_URL env content st).
Proof. intros H. unfold sendMessage. rewrite H. reflexivity. Qed.

End SendMessage.

(** ** The event stream *)

Section StreamProperties.
Import JSString JSON Types StreamingChat StreamSpec.

(** C1. When the request succeeds and the body is read, the assistant
    message (the last message of the list) ends with a content equal to the
    concatenation, in arrival order, of the [content] fields of the text
    events that precede the first [done] or [error] event; and an event
    that is not a text event leaves the content of every message as it was.
    The text events handled carry a [content] that the client can append:
    a string, as the protocol has it, or another value whose conversion to
    a string is exact (a conversion that throws ends the handler and is not
    covered). *)
Theorem sendMessage_content_is_streamed_text
        (API_BASE_URL : string) (env : Environment) (content : string) (st : Hook)
        (status : Z) (body : Body) :
  fetch_outcome env = FetchResponse true status (Some body) ->
  Exact.coercible_texts (before_terminal (events_of_chunks (body_chunks body))) = true ->
  let aid := "msg_" +:+ Z_to_string (now_assistant env + 1) in
  (exists earlier m,
      messages (sendMessage API_BASE_URL env content st) = earlier ++ [m]
      /\ msg_id m = aid /\ msg_role m = assistant
      /\ msg_content m = streamed_text (events_of_chunks (body_chunks body)))
  /\ (forall data h,
         is_text data = false ->
         List.map msg_content (messages (fst (handle_data aid data h)))
         = List.map msg_content (messages h)).
Proof.
  intros Hfetch _ aid. split.
  - rewrite (sendMessage_reads _ _ _ _ _ _ Hfetch). fold aid.
    rewrite read_stream_messages, read_loop_events, process_events_through.
    cbn [fst]. rewrite apply_events_messages.
    unfold before_reading; cbn [messages]. fold aid.
    rewrite List.map_app. cbn [List.map]. rewrite String.eqb_refl.
    eexists _, _. split; [reflexivity|].
    rewrite message_steps_id, message_steps_content. cbn [msg_id msg_content].
    repeat split.
    + now rewrite message_steps_role.
    + rewrite append_nil_l. unfold streamed_text. now rewrite filter_text_through.
  - intros data h Htext. rewrite handle_data_messages, List.map_map.
    apply List.map_ext. intros m.
    destruct (String.eqb (msg_id m) aid); [|reflexivity].
    now rewrite message_step_content, Htext.
Qed.

Lemma sendMessage_content_is_streamed_text_witness :
  let body := mkBody [frame (payload "{'type':'text','content':'Hel'}")
                        +:+ frame (payload "{'type':'tool_call','name':'x','status':'complete'}");
                      frame (payload "{'type':'text','content':'lo'}")
                        +:+ frame (payload "{'type':'done'}")
                        +:+ frame (payload "{'type':'text','content':'!'}")] None in
  let env := mkEnvironment 1700000000000 1700000000000 (FetchResponse true 200 (Some body)) in
  (fetch_outcome env = FetchResponse true 200 (Some body)
   /\ Exact.coercible_texts (before_terminal (events_of_chunks (body_chunks body))) = true)
  /\ exists earlier m,
      messages (sendMessage "http://localhost:8000" env "hi" initial_hook) = earlier ++ [m]
      /\ msg_id m = "msg_1700000000001" /\ msg_role m = assistant
      /\ msg_content m = "Hello".
Proof.
  intros body env. split; [split; reflexivity|].
  exact (proj1 (sendMessage_content_is_streamed_text
                  "http://localhost:8000" env "hi" initial_hook 200 body eq_refl eq_refl)).
Defined.

(** C3. When the events of the response are [pre], then a first [done] or
    [error] event [t], then [post], the run ends in the state that [t]'s
    outcome gives from the state reached by [pre]: the [done] outcome or
    the [error] outcome, never both; neither [post] nor the way the body
    ends has any effect. *)
Theorem read_stream_stops_at_first_terminal
        (aid : string) (body : Body) (st : Hook) (pre post : list json) (t : json) :
  events_of_chunks (body_chunks body) = pre ++ t :: post ->
  forallb (fun e => negb (is_terminal e)) pre = true ->
  is_terminal t = true ->
  read_stream aid body st =
    (if has_type "done" t then done_outcome aid (apply_events aid pre st)
     else error_outcome t (apply_events aid pre st))
  /\ has_type "done" t = negb (has_type "error" t)
  /\ messages (read_stream aid body st)
     = messages (apply_events aid (pre ++ [t]) st).
Proof.
  intros Hev Hpre Ht.
  destruct (through_terminal_first pre post t Hpre Ht) as (Hthr & _ & Hex).
  assert (Hrun : read_stream aid body st = apply_events aid (pre ++ [t]) st).
  { unfold read_stream. rewrite read_loop_events, process_events_through, Hev, Hthr, Hex.
    reflexivity. }
  assert (Hone : has_type "done" t = negb (has_type "error" t)).
  { unfold is_terminal in Ht. destruct (has_type "done" t) eqn:Hd.
    - now rewrite (has_type_other "done" "error" t) by (discriminate || assumption).
    - cbn in Ht. now rewrite Ht. }
  repeat split; [|exact Hone|now rewrite Hrun].
  rewrite Hrun, apply_events_app. unfold apply_events at 1. cbn [fold_left].
  rewrite handle_data_spec. cbn [fst].
  destruct (has_type "done" t); [reflexivity|].
  destruct (has_type "error" t); [reflexivity | discriminate Hone].
Qed.

Lemma read_stream_stops_at_first_terminal_witness :
  let body := mkBody [frame (payload "{'type':'text','content':'partial'}");
                      frame (payload "{'type':'error','content':'model failed'}")
                        +:+ frame (payload "{'type':'text','content':'late'}");
                      frame (payload "{'type':'done'}")] None in
  let pre := [JObj [("type", JStr "text"); ("content", JStr "partial")]] in
  let t := JObj [("type", JStr "error"); ("content", JStr "model failed")] in
  let post := [JObj [("type", JStr "text"); ("content", JStr "late")];
               JObj [("type", JStr "done")]] in
  let st := before_reading "" (mkEnvironment 0 0 (FetchRejected (mkException true "" "")))
                           "q" initial_hook in
  (events_of_chunks (body_chunks body) = pre ++ t :: post
   /\ forallb (fun e => negb (is_terminal e)) pre = true
   /\ is_terminal t = true)
  /\ read_stream "msg_1" body st = error_outcome t (apply_events "msg_1" pre st).
Proof.
  intros body pre t post st. split; [repeat split; reflexivity|].
  exact (proj1 (read_stream_stops_at_first_terminal
                  "msg_1" body st pre post t eq_refl eq_refl eq_refl)).
Defined.

(** C4. An [error] event leaves the list of messages as it is, so the
    content, sources, tool calls and components of the assistant message are
    those it had; the error shown becomes the event's [content], the
    streaming flag of the hook is cleared, and [sendMessage] returns. *)
Theorem error_event_preserves_messages (aid : string) (data : json) (st : Hook) :
  has_type "error" data = true ->
  handle_data aid data st = (error_outcome data st, Return)
  /\ messages (fst (handle_data aid data st)) = messages st
  /\ error (fst (handle_data aid data st)) = prop data "content"
  /\ isStreaming (fst (handle_data aid data st)) = false.
Proof.
  intros He. rewrite handle_data_spec. unfold is_terminal.
  rewrite (has_type_other "error" "done" data), He by (discriminate || assumption).
  cbn. auto.
Qed.

Lemma error_event_preserves_messages_witness :
  let data := JObj [("type", JStr "error"); ("content", JStr "model failed")] in
  let st := apply_events "msg_1"
              [JObj [("type", JStr "text"); ("content", JStr "partial")]]
              (before_reading "" (mkEnvironment 0 0 (FetchRejected (mkException true "" "")))
                              "q" initial_hook) in
  has_type "error" data = true
  /\ (handle_data "msg_1" data st = (error_outcome data st, Return)
      /\ messages (fst (handle_data "msg_1" data st)) = messages st
      /\ error (fst (handle_data "msg_1" data st)) = Some (JStr "model failed")
      /\ isStreaming (fst (handle_data "msg_1" data st)) = false).
Proof.
  intros data st. split; [reflexivity|].
  exact (error_event_preserves_messages "msg_1" data st eq_refl).
Defined.

(** C7. Whatever the outcome of the request and of the reads, a call of
    [sendMessage(content)] adds exactly one request to those issued: a POST
    whose body is the object [{ message: content, use_context: true }]. *)
Theorem sendMessage_issues_one_post
        (API_BASE_URL : string) (env : Environment) (content : string) (st : Hook) :
  exists r,
    requests (sendMessage API_BASE_URL env content st) = requests st ++ [r]
    /\ req_url r = API_BASE_URL +:+ "/api/chat/stream"
    /\ req_method r = "POST"
    /\ req_body r = JObj [("message", JStr content); ("use_context", JBool true)].
Proof.
  exists (chat_request API_BASE_URL content). repeat split.
  unfold sendMessage.
  destruct (fetch_outcome env) as [err | ok status body].
  - now rewrite catch_block_requests.
  - destruct ok; cbn [negb].
    + destruct body as [b|].
      * now rewrite read_stream_requests.
      * now rewrite catch_block_requests.
    + now rewrite catch_block_requests.
Qed.

(** A body that ends with neither event: every event is handled, and the
    code after the loop clears the streaming flag of the hook. *)
Lemma read_stream_without_terminal (aid : string) (chunks : list string) (st : Hook) :
  existsb is_terminal (events_of_chunks chunks) = false ->
  read_stream aid (mkBody chunks None) st
  = setAbortController None
      (setIsStreaming false (apply_events aid (events_of_chunks chunks) st)).
Proof.
  intros H. unfold read_stream. cbn [body_chunks body_failure].
  rewrite read_loop_events, process_events_through, H.
  replace (through_terminal (events_of_chunks chunks)) with (events_of_chunks chunks);
    [reflexivity|].
  induction (events_of_chunks chunks) as [|e l IH]; [reflexivity|].
  cbn in H. apply orb_false_elim in H as [He Hl].
  cbn. now rewrite He, <- IH.
Qed.

End StreamProperties.

(** ** Chunk boundaries *)

Section Chunking.
Import JSString JSON Types StreamingChat StreamSpec.

Lemma process_lines_blank aid (lines : list string) st :
  process_lines aid ("" :: lines) st = process_lines aid lines st.
Proof. reflexivity. Qed.

(** A chunk that ends where a line ends is read like its lines followed by
    those of the rest of the stream. *)
Lemma process_lines_complete aid (c rest : string) st :
  line_complete c = true ->
  process_lines aid (split_newline c ++ split_newline rest) st
  = process_lines aid (split_newline (c +:+ rest)) st.
Proof.
  unfold line_complete. intros H. apply orb_prop in H as [H|H].
  - apply String.eqb_eq in H; subst c. reflexivity.
  - apply endsWith_suffix in H as [a ->].
    rewrite append_assoc, append_cons, append_nil_l.
    rewrite !split_newline_break. cbn [split_newline].
    rewrite <- app_assoc, !process_lines_app.
    destruct (process_lines aid (split_newline a) st) as [st' []]; reflexivity.
Qed.

Lemma read_loop_aligned aid chunks st :
  line_aligned chunks ->
  read_loop aid chunks st = process_lines aid (split_newline (concat_strings chunks)) st.
Proof.
  unfold line_aligned.
  revert st; induction chunks as [|c chunks IH]; intros st Hal; [reflexivity|].
  destruct chunks as [|c' chunks].
  - cbn [read_loop concat_strings fold_right]. rewrite append_nil_r.
    destruct (process_lines aid (split_newline c) st) as [st' []]; reflexivity.
  - cbn [removelast] in Hal. apply Forall_cons in Hal as [Hc Hal].
    cbn [concat_strings fold_right]. fold (concat_strings (c' :: chunks)).
    rewrite <- process_lines_complete by exact Hc.
    rewrite process_lines_app. cbn [read_loop].
    change (read_loop aid (c' :: chunks)) with
      (fun s => read_loop aid (c' :: chunks) s) in *.
    destruct (process_lines aid (split_newline c) st) as [st' []]; [|reflexivity].
    now rewrite <- IH.
Qed.

(** C2, as stated, fails: a frame cut inside its [data: ] line is lost. The
    single chunk delivers the text; the two chunks deliver nothing. *)
Lemma chunking_changes_the_result : ~ chunking_independent.
Proof.
  intros H.
  specialize (H "msg_1"
                [frame (payload "{'type':'text','content':'Hi'}")]
                [(payload "data: {'type':'te");
                 (payload "xt','content':'Hi'}") +:+ String newline (String newline "")]
                (before_reading "" (mkEnvironment 0 0 (FetchResponse true 200 None))
                                "q" initial_hook)
                eq_refl).
  vm_compute in H. discriminate H.
Qed.

(** C2, amended. Two ways of cutting the same stream into chunks give the
    same final state when, in both, every chunk but the last ends with a
    line feed (or is empty). *)
Theorem aligned_chunking_is_irrelevant
        (aid : string) (chunks1 chunks2 : list string) (failure : option Exception)
        (st : Hook) :
  line_aligned chunks1 ->
  line_aligned chunks2 ->
  concat_strings chunks1 = concat_strings chunks2 ->
  read_stream aid (mkBody chunks1 failure) st = read_stream aid (mkBody chunks2 failure) st.
Proof.
  intros H1 H2 Heq. unfold read_stream. cbn [body_chunks body_failure].
  now rewrite (read_loop_aligned _ _ _ H1), (read_loop_aligned _ _ _ H2), Heq.
Qed.

Lemma aligned_chunking_is_irrelevant_witness :
  let f1 := frame (payload "{'type':'text','content':'Hi'}") in
  let f2 := frame (payload "{'type':'done'}") in
  let st := before_reading "" (mkEnvironment 0 0 (FetchResponse true 200 None))
                           "q" initial_hook in
  (line_aligned [f1 +:+ f2] /\ line_aligned [(payload "data: {'type':'text','content':'Hi'}")
                                               +:+ String newline ""; String newline ""; f2]
   /\ concat_strings [f1 +:+ f2]
      = concat_strings [(payload "data: {'type':'text','content':'Hi'}") +:+ String newline "";
                        String newline ""; f2])
  /\ read_stream "msg_1" (mkBody [f1 +:+ f2] None) st
     = read_stream "msg_1"
         (mkBody [(payload "data: {'type':'text','content':'Hi'}") +:+ String newline "";
                  String newline ""; f2] None) st.
Proof.
  intros f1 f2 st.
  assert (A1 : line_aligned [f1 +:+ f2]) by constructor.
  assert (A2 : line_aligned [(payload "data: {'type':'text','content':'Hi'}")
                               +:+ String newline ""; String newline ""; f2])
    by (repeat constructor).
  assert (E : concat_strings [f1 +:+ f2]
              = concat_strings [(payload "data: {'type':'text','content':'Hi'}")
                                  +:+ String newline ""; String newline ""; f2])
    by reflexivity.
  split; [auto|].
  exact (aligned_chunking_is_irrelevant "msg_1" _ _ None st A1 A2 E).
Defined.

End Chunking.

(** ** Tool calls *)

Section ToolCalls.
Import JSString JSON Types StreamingChat StreamSpec.

Lemma strict_eq_true (a b : jsval) : strict_eq a b = true -> a = b.
Proof.
  destruct a as [[| x | x | x | x | x]|], b as [[| y | y | y | y | y]|];
    cbn; try discriminate; try reflexivity; intros H.
  - apply Bool.eqb_prop in H. now subst.
  - unfold number_eqb in H. apply andb_prop in H as [H1 H2].
    apply Z.eqb_eq in H1, H2. destruct x, y; cbn in *; now subst.
  - apply String.eqb_eq in H. now subst.
Qed.

Lemma strict_eq_sym (a b : jsval) : strict_eq a b = strict_eq b a.
Proof.
  destruct a as [[| x | x | x | x | x]|], b as [[| y | y | y | y | y]|];
    cbn; try reflexivity.
  - now destruct x, y.
  - unfold number_eqb. now rewrite (Z.eqb_sym (mant x)), (Z.eqb_sym (exp10 x)).
  - apply String.eqb_sym.
Qed.

(** [findIndex] gives the first index that satisfies the test, or [-1]
    when no entry does. *)
Lemma findIndex_spec {A} (p : A -> bool) (l : list A) :
  (findIndex p l = -1 /\ forall i x, l !! i = Some x -> p x = false)
  \/ (exists (i : nat) x,
         findIndex p l = Z.of_nat i /\ l !! i = Some x /\ p x = true
         /\ forall j y, (j < i)%nat -> l !! j = Some y -> p y = false).
Proof.
  induction l as [|a l IH]; cbn [findIndex].
  - left. split; [reflexivity|]. intros i x H. discriminate H.
  - destruct (p a) eqn:Hp.
    + right. exists 0%nat, a. repeat split; auto. intros j y Hj. lia.
    + destruct IH as [[Hi Hall] | (i & x & Hi & Hx & Hpx & Hfirst)].
      * left. rewrite Hi. cbn. split; [reflexivity|].
        intros [|i] x H; cbn in H; [now inversion H; subst | eauto].
      * right. exists (S i), x. rewrite Hi.
        destruct (Z.ltb_spec (Z.of_nat i) 0) as [Hlt|_]; [lia|].
        repeat split; auto; [lia|].
        intros [|j] y Hj H; cbn in H; [now inversion H; subst|].
        apply (Hfirst j y); [lia | exact H].
Qed.

Lemma distinct_names_insert (tcs : list ToolCall) (i : nat) old new :
  distinct_names tcs ->
  tcs !! i = Some old ->
  strict_eq (tc_name old) (tc_name new) = true ->
  distinct_names (<[i:=new]> tcs).
Proof.
  intros Hd Hold Heq j k a b Hjk Ha Hb.
  apply strict_eq_true in Heq.
  destruct (Nat.eq_dec i j) as [->|Hij].
  - rewrite list_lookup_insert_eq in Ha by (eapply lookup_lt_Some; eauto).
    rewrite list_lookup_insert_ne in Hb by exact Hjk.
    inversion Ha; subst a. rewrite <- Heq. now apply (Hd j k old b).
  - rewrite list_lookup_insert_ne in Ha by exact Hij.
    destruct (Nat.eq_dec i k) as [->|Hik].
    + rewrite list_lookup_insert_eq in Hb by (eapply lookup_lt_Some; eauto).
      inversion Hb; subst b. rewrite <- Heq. now apply (Hd j k a old).
    + rewrite list_lookup_insert_ne in Hb by exact Hik. now apply (Hd j k a b).
Qed.

Lemma distinct_names_snoc (tcs : list ToolCall) new :
  distinct_names tcs ->
  (forall i x, tcs !! i = Some x -> strict_eq (tc_name x) (tc_name new) = false) ->
  distinct_names (tcs ++ [new]).
Proof.
  intros Hd Hnew j k a b Hjk Ha Hb.
  apply lookup_snoc_Some in Ha as [[Hj Ha] | [Hj Ha]];
    apply lookup_snoc_Some in Hb as [[Hk Hb] | [Hk Hb]]; subst.
  - eapply Hd; eauto.
  - eapply Hnew; eauto.
  - rewrite strict_eq_sym. eapply Hnew; eauto.
  - congruence.
Qed.

Lemma distinct_names_nil : distinct_names [].
Proof. intros i j a b _ H. discriminate H. Qed.

(** What a [tool_call] event does to the list of a message. *)
Lemma update_toolCalls_spec data msg :
  let tcs := default [] (msg_toolCalls msg) in
  let new := mkToolCall (prop data "name") (prop data "status") in
  (exists (i : nat) old,
      tcs !! i = Some old
      /\ strict_eq (tc_name old) (prop data "name") = true
      /\ (forall j y, (j < i)%nat -> tcs !! j = Some y ->
                      strict_eq (tc_name y) (prop data "name") = false)
      /\ msg_toolCalls (update_toolCalls data msg) = Some (<[i:=new]> tcs))
  \/ ((forall i x, tcs !! i = Some x -> strict_eq (tc_name x) (prop data "name") = false)
      /\ msg_toolCalls (update_toolCalls data msg) = Some (tcs ++ [new])).
Proof.
  intros tcs new. unfold update_toolCalls. fold tcs. fold new.
  destruct (findIndex_spec (fun tc => strict_eq (tc_name tc) (prop data "name")) tcs)
    as [[Hi Hall] | (i & x & Hi & Hx & Hpx & Hfirst)]; rewrite Hi.
  - right. split; [exact Hall | reflexivity].
  - left. exists i, x.
    destruct (Z.leb_spec 0 (Z.of_nat i)) as [_|Hlt]; [|lia].
    rewrite Nat2Z.id. repeat split; auto.
Qed.

Lemma update_toolCalls_distinct data msg :
  message_distinct_names msg -> message_distinct_names (update_toolCalls data msg).
Proof.
  unfold message_distinct_names. intros Hd.
  destruct (update_toolCalls_spec data msg)
    as [(i & old & Hold & Heq & _ & ->) | (Hall & ->)]; cbn [default].
  - eapply distinct_names_insert; eauto.
  - apply distinct_names_snoc; auto.
Qed.

Lemma message_step_distinct data msg :
  message_distinct_names msg -> message_distinct_names (message_step data msg).
Proof.
  intros Hd. unfold message_step.
  destruct (has_type "text" data); [exact Hd|].
  destruct (has_type "tool_call" data); [now apply update_toolCalls_distinct|].
  destruct (has_type "component" data); [exact Hd|].
  destruct (has_type "sources" data); [exact Hd|].
  destruct (has_type "done" data); exact Hd.
Qed.

Lemma message_steps_distinct events msg :
  message_distinct_names msg -> message_distinct_names (message_steps events msg).
Proof.
  revert msg; induction events as [|e events IH]; intros msg Hd; [exact Hd|].
  cbn. apply IH. now apply message_step_distinct.
Qed.

Lemma apply_events_distinct aid events st :
  List.Forall message_distinct_names (messages st) ->
  List.Forall message_distinct_names (messages (apply_events aid events st)).
Proof.
  intros H. rewrite apply_events_messages.
  induction H as [|m l Hm Hl IH]; cbn; constructor; auto.
  destruct (String.eqb (msg_id m) aid); [now apply message_steps_distinct | exact Hm].
Qed.

Lemma findIndex_lower {A} (p : A -> bool) (l : list A) : -1 <= findIndex p l.
Proof.
  destruct (findIndex_spec p l) as [[-> _] | (i & x & -> & _)]; lia.
Qed.

(** The index found and the list written at it, against the wording of the
    specification. *)
Lemma update_toolCalls_upsert (new : ToolCall) (tcs : list ToolCall) :
  let i := findIndex (fun tc => strict_eq (tc_name tc) (tc_name new)) tcs in
  (if 0 <=? i then <[Z.to_nat i := new]> tcs else tcs ++ [new]) = Exact.upsert new tcs.
Proof.
  cbn zeta. induction tcs as [|a l IH]; [reflexivity|].
  cbn [findIndex Exact.upsert].
  destruct (strict_eq (tc_name a) (tc_name new)); [reflexivity|].
  pose proof (findIndex_lower (fun tc => strict_eq (tc_name tc) (tc_name new)) l) as Hlow.
  set (i := findIndex (fun tc => strict_eq (tc_name tc) (tc_name new)) l) in *.
  destruct (Z.ltb_spec i 0) as [Hneg|Hpos].
  - destruct (Z.leb_spec 0 i) as [Hge|_]; [lia|].
    cbn. f_equal. exact IH.
  - destruct (Z.leb_spec 0 i) as [_|Hlt]; [|lia].
    destruct (Z.leb_spec 0 (i + 1)) as [_|Hlt]; [|lia].
    replace (Z.to_nat (i + 1)) with (S (Z.to_nat i)) by lia.
    cbn. f_equal. exact IH.
Qed.

Lemma upsert_names (new : ToolCall) (tcs : list ToolCall) :
  List.map tc_name (Exact.upsert new tcs)
  = if existsb (fun tc => strict_eq (tc_name tc) (tc_name new)) tcs
    then List.map tc_name tcs
    else List.map tc_name tcs ++ [tc_name new].
Proof.
  induction tcs as [|a l IH]; [reflexivity|]. cbn [Exact.upsert existsb List.map].
  destruct (strict_eq (tc_name a) (tc_name new)) eqn:E; cbn [orb List.map].
  - apply strict_eq_true in E. now rewrite E.
  - rewrite IH. now destruct (existsb _ l).
Qed.

(** C8. A [tool_call] event leaves the hook as the specification says: only the
    tool-call list of the assistant message changes, the entry with the
    event's name being replaced where it stands and a new name appended at
    the end, so that the names keep their order of first appearance; the
    reading goes on. From messages whose lists have pairwise different
    names, every sequence of events, and the reader on any body, leads to
    messages that have the property again. Names are compared with [===];
    the events carry names that are not numbers. *)
Theorem toolCalls_names_stay_distinct
        (aid : string) (events : list json) (body : Body) (st : Hook) :
  List.Forall message_distinct_names (messages st) ->
  (Exact.exact_names events = true ->
   List.Forall message_distinct_names (messages (apply_events aid events st)))
  /\ (Exact.exact_names (events_of_chunks (body_chunks body)) = true ->
      List.Forall message_distinct_names (messages (read_stream aid body st)))
  /\ (forall data h,
         has_type "tool_call" data = true ->
         Exact.exact_name data = true ->
         handle_data aid data h = (Exact.tool_call_outcome aid data h, Continue))
  /\ (forall new tcs,
         List.map tc_name (Exact.upsert new tcs)
         = if existsb (fun tc => strict_eq (tc_name tc) (tc_name new)) tcs
           then List.map tc_name tcs
           else List.map tc_name tcs ++ [tc_name new]).
Proof.
  intros Hst. split; [intros _; now apply apply_events_distinct|]. split.
  - intros _. rewrite read_stream_messages, read_loop_events, process_events_through.
    now apply apply_events_distinct.
  - split; [|apply upsert_names].
    intros data h Htool _. rewrite handle_data_spec. unfold is_terminal.
    rewrite (has_type_other "tool_call" "done" data) by (discriminate || assumption).
    rewrite (has_type_other "tool_call" "error" data) by (discriminate || assumption).
    cbn [orb]. unfold Exact.tool_call_outcome. f_equal. f_equal.
    apply List.map_ext. intros msg.
    destruct (String.eqb (msg_id msg) aid); [|reflexivity].
    unfold message_step.
    rewrite (has_type_other "tool_call" "text" data) by (discriminate || assumption).
    rewrite Htool. unfold update_toolCalls.
    rewrite <- (update_toolCalls_upsert
                  (mkToolCall (prop data "name") (prop data "status"))
                  (default [] (msg_toolCalls msg))).
    cbn [tc_name]. now destruct (0 <=? _).
Qed.

Lemma toolCalls_names_stay_distinct_witness :
  let search s := JObj [("type", JStr "tool_call"); ("name", JStr "searching_documents");
                        ("status", JStr s)] in
  let read := JObj [("type", JStr "tool_call"); ("name", JStr "retrieving_pdf");
                    ("status", JStr "in_progress")] in
  let st := before_reading "" (mkEnvironment 0 0 (FetchResponse true 200 None))
                           "q" initial_hook in
  let st2 := apply_events "msg_1" [search "in_progress"; read] st in
  (List.Forall message_distinct_names (messages st)
   /\ Exact.exact_names [search "in_progress"; read; search "complete"] = true
   /\ has_type "tool_call" (search "complete") = true
   /\ Exact.exact_name (search "complete") = true)
  /\ List.Forall message_distinct_names
        (messages (apply_events "msg_1" [search "in_progress"; read; search "complete"] st))
  /\ List.map msg_toolCalls (messages (fst (handle_data "msg_1" (search "complete") st2)))
     = [None;
        Some [mkToolCall (Some (JStr "searching_documents")) (Some (JStr "complete"));
              mkToolCall (Some (JStr "retrieving_pdf")) (Some (JStr "in_progress"))]].
Proof.
  intros search read st st2.
  assert (H : List.Forall message_distinct_names (messages st))
    by (repeat constructor; apply distinct_names_nil).
  split; [repeat split; exact H|].
  pose proof (toolCalls_names_stay_distinct
                "msg_1" [search "in_progress"; read; search "complete"]
                (mkBody [] None) st H) as (H1 & _ & H3 & _).
  split; [exact (H1 eq_refl)|].
  now rewrite (H3 (search "complete") st2 eq_refl eq_refl).
Defined.

End ToolCalls.

(** ** Citation markers *)

Section Citations.
Import JSString JSON Types ParseInt MessageBubble CitationSpec Exact.

Lemma is_digit_cases (c : ascii) :
  is_digit c = true ->
  In c ["0"; "1"; "2"; "3"; "4"; "5"; "6"; "7"; "8"; "9"]%char.
Proof.
  unfold is_digit. intros H. apply andb_prop in H as [H1 H2].
  apply Nat.leb_le in H1, H2.
  rewrite <- (ascii_nat_embedding c).
  assert (Hn : (nat_of_ascii c = 48 \/ nat_of_ascii c = 49 \/ nat_of_ascii c = 50
                \/ nat_of_ascii c = 51 \/ nat_of_ascii c = 52 \/ nat_of_ascii c = 53
                \/ nat_of_ascii c = 54 \/ nat_of_ascii c = 55 \/ nat_of_ascii c = 56
                \/ nat_of_ascii c = 57)%nat) by lia.
  repeat (destruct Hn as [Hn|Hn]; [rewrite Hn; cbn; tauto|]).
  rewrite Hn; cbn; tauto.
Qed.

(** A digit is none of the other characters the scanners look for. *)
Lemma digit_is_plain (c : ascii) :
  is_digit c = true ->
  Ascii.eqb c open_bracket = false /\ Ascii.eqb c close_bracket = false
  /\ is_space c = false /\ Ascii.eqb c "-" = false /\ Ascii.eqb c "+" = false
  /\ Ascii.eqb c "x" = false /\ Ascii.eqb c "X" = false
  /\ forall r, unicode_space_length (c :: r) = 0%nat.
Proof.
  intros H. apply is_digit_cases in H. cbn in H.
  repeat (destruct H as [<-|H];
          [repeat split; try reflexivity; intros [|a [|b r]]; reflexivity|]).
  contradiction.
Qed.

Lemma span_digits_spec (t a b : list ascii) :
  span_digits t = (a, b) ->
  t = a ++ b /\ forallb is_digit a = true
  /\ match b with [] => True | c :: _ => is_digit c = false end.
Proof.
  revert a b; induction t as [|c t IH]; cbn [span_digits]; intros a b H.
  - inversion H; subst. auto.
  - destruct (is_digit c) eqn:Hc.
    + destruct (span_digits t) as [a' b'] eqn:E. inversion H; subst.
      destruct (IH _ _ eq_refl) as (-> & Ha & Hb). cbn. rewrite Hc. auto.
    + inversion H; subst. cbn. auto.
Qed.

Lemma span_digits_all (ds rest : list ascii) :
  forallb is_digit ds = true ->
  match rest with [] => True | c :: _ => is_digit c = false end ->
  span_digits (ds ++ rest) = (ds, rest).
Proof.
  intros Hds Hrest. induction ds as [|d ds IH]; cbn.
  - destruct rest as [|c r]; cbn; [reflexivity | now rewrite Hrest].
  - cbn in Hds. apply andb_prop in Hds as [Hd Hds]. now rewrite Hd, IH.
Qed.

Lemma marker_app (ds r : list ascii) :
  marker ds ++ r = open_bracket :: ds ++ close_bracket :: r.
Proof. unfold marker. cbn. now rewrite <- app_assoc. Qed.

Lemma match_here_marker (ds r : list ascii) :
  digits ds -> match_here (marker ds ++ r) = Some (ds, r).
Proof.
  intros [Hne Hds]. rewrite marker_app. cbn [match_here].
  rewrite Ascii.eqb_refl, span_digits_all by (auto; reflexivity).
  destruct ds as [|d ds]; [contradiction|]. now rewrite Ascii.eqb_refl.
Qed.

Lemma match_here_inv (s ds r : list ascii) :
  match_here s = Some (ds, r) -> s = marker ds ++ r /\ digits ds.
Proof.
  destruct s as [|c t]; [discriminate|]. cbn [match_here].
  destruct (Ascii.eqb_spec c open_bracket) as [->|]; [|discriminate].
  destruct (span_digits t) as [a b] eqn:E.
  apply span_digits_spec in E as (-> & Ha & _).
  destruct a as [|d a]; [discriminate|]. destruct b as [|c' b]; [discriminate|].
  destruct (Ascii.eqb_spec c' close_bracket) as [->|]; [|discriminate].
  intros H; inversion H; subst. rewrite marker_app. split; [reflexivity|].
  split; [discriminate | exact Ha].
Qed.

Lemma has_marker_nil : ~ has_marker [].
Proof.
  intros (pre & ds & post & H & _). symmetry in H.
  apply app_eq_nil in H as [_ H]. rewrite marker_app in H. discriminate H.
Qed.

(** A text with a marker has a match. *)
Lemma has_marker_search (s : list ascii) : has_marker s -> search s <> None.
Proof.
  intros (pre & ds & post & -> & Hds).
  induction pre as [|c pre IH]; cbn [app].
  - destruct (marker ds ++ post) as [|c t] eqn:E.
    + rewrite marker_app in E. discriminate E.
    + cbn [search]. rewrite <- E, match_here_marker by exact Hds. discriminate.
  - cbn [search]. destruct (match_here _) as [[d r]|]; [discriminate|].
    destruct (search (pre ++ marker ds ++ post)) as [[[p d] r]|]; [discriminate|].
    contradiction.
Qed.

Lemma search_none (s : list ascii) : search s = None -> ~ has_marker s.
Proof. intros H Hm. now apply has_marker_search in Hm. Qed.

(** The leftmost match: the text is cut at it, and there is no marker
    before it. *)
Lemma search_inv (s pre ds r : list ascii) :
  search s = Some (pre, ds, r) ->
  s = pre ++ marker ds ++ r /\ digits ds /\ ~ has_marker pre.
Proof.
  revert pre; induction s as [|c s IH]; intros pre H; [discriminate|].
  cbn [search] in H. destruct (match_here (c :: s)) as [[d r']|] eqn:Hm.
  - inversion H; subst. apply match_here_inv in Hm as [-> Hd].
    cbn [app]. repeat split; auto using has_marker_nil; apply Hd.
  - destruct (search s) as [[[p d] r']|] eqn:Hs; [|discriminate].
    inversion H; subst. destruct (IH _ eq_refl) as (-> & Hd & Hno).
    repeat split; auto; try apply Hd.
    intros (a & d' & b & Hpre & Hd').
    destruct a as [|x a]; cbn [app] in Hpre.
    + assert (Hc : match_here (c :: p ++ marker ds ++ r)
                   = Some (d', b ++ marker ds ++ r)).
      { rewrite app_comm_cons, Hpre, <- app_assoc. now apply match_here_marker. }
      congruence.
    + inversion Hpre; subst. apply Hno. now exists a, d', b.
Qed.

Lemma match_group_marker (ds : list ascii) :
  digits ds -> match_group (marker ds) = Some ds.
Proof.
  intros Hds. unfold match_group.
  pose proof (match_here_marker ds [] Hds) as H. rewrite app_nil_r in H.
  destruct (marker ds) as [|c t] eqn:E; [discriminate H|].
  cbn [search]. now rewrite H.
Qed.

Lemma match_group_text (t : list ascii) : ~ has_marker t -> match_group t = None.
Proof.
  intros Hno. unfold match_group.
  destruct (search t) as [[[p d] r]|] eqn:E; [|reflexivity].
  apply search_inv in E as (-> & Hd & _). exfalso. apply Hno. now exists p, d, r.
Qed.

(** [parseInt] reads a string of digits as its decimal value. *)
Lemma parseInt_digits (ds : list ascii) :
  digits ds -> parseInt (string_of_list_ascii ds) = Some (decimal_value 0 ds).
Proof.
  intros [Hne Hds]. unfold parseInt.
  rewrite list_ascii_of_string_of_list_ascii.
  destruct ds as [|d ds]; [contradiction|].
  cbn in Hds. apply andb_prop in Hds as [Hd Hds].
  destruct (digit_is_plain d Hd) as (_ & _ & Hsp & Hminus & Hplus & _ & _ & Huni).
  cbn [string_of_list_ascii String.length trim_start].
  rewrite Hsp, Huni. cbn [read_sign]. rewrite Hminus, Hplus.
  assert (Hhex : hex_prefix (d :: ds) = false).
  { destruct ds as [|e ds]; [reflexivity|]. cbn [hex_prefix].
    cbn in Hds. apply andb_prop in Hds as [He _].
    destruct (digit_is_plain e He) as (_ & _ & _ & _ & _ & Hx & HX & _).
    rewrite Hx, HX. cbn. apply andb_false_r. }
  rewrite Hhex.
  pose proof (span_digits_all (d :: ds) [] ltac:(cbn; now rewrite Hd, Hds) I) as Hspan.
  rewrite app_nil_r in Hspan. rewrite Hspan. cbn [fst].
  f_equal. now destruct (decimal_value 0 (d :: ds)).
Qed.

(** [parseInt] reads the digits a string starts with. *)
Lemma parseInt_leading_digits (ds rest : list ascii) :
  digits ds -> ends_number rest ->
  parseInt (string_of_list_ascii (ds ++ rest)) = Some (decimal_value 0 ds).
Proof.
  intros [Hne Hds] Hrest. unfold parseInt.
  rewrite list_ascii_of_string_of_list_ascii.
  destruct ds as [|d ds]; [contradiction|].
  cbn in Hds. apply andb_prop in Hds as [Hd Hds].
  destruct (digit_is_plain d Hd) as (_ & _ & Hsp & Hminus & Hplus & _ & _ & Huni).
  cbn [app string_of_list_ascii String.length trim_start].
  rewrite Hsp, Huni. cbn [read_sign]. rewrite Hminus, Hplus.
  assert (Hhex : hex_prefix (d :: ds ++ rest) = false).
  { destruct ds as [|e ds]; cbn [app].
    - destruct rest as [|c rest]; [reflexivity|]. cbn [hex_prefix].
      destruct Hrest as (_ & Hx & HX).
      apply Ascii.eqb_neq in Hx, HX. rewrite Hx, HX. cbn. apply andb_false_r.
    - cbn [hex_prefix]. cbn in Hds. apply andb_prop in Hds as [He _].
      destruct (digit_is_plain e He) as (_ & _ & _ & _ & _ & Hx & HX & _).
      rewrite Hx, HX. cbn. apply andb_false_r. }
  rewrite Hhex.
  assert (Hspan : span_digits ((d :: ds) ++ rest) = (d :: ds, rest)).
  { apply span_digits_all; [cbn; now rewrite Hd, Hds|].
    destruct rest as [|c rest]; [exact I | apply Hrest]. }
  cbn [app] in Hspan. rewrite Hspan. cbn [fst].
  f_equal. now destruct (decimal_value 0 (d :: ds)).
Qed.

Example renderContent_example :
  renderContent "See [2], [[1]] and [x]."
                [mkSource 1 "doc-a" "a.pdf" (PageNumber 3) "one"]
  = [ElemSpan "See ";
     ElemBadge (mkBadge (Some 2) None);
     ElemSpan ", [";
     ElemBadge (mkBadge (Some 1) (Some (mkSource 1 "doc-a" "a.pdf" (PageNumber 3) "one")));
     ElemSpan "] and [x]."].
Proof. reflexivity. Qed.

Example preprocessContent_example :
  preprocessContent "See [2], [[1]] and [x]."
  = "See [2](#citation-2), [[1](#citation-1)] and [x].".
Proof. reflexivity. Qed.

Example parseInt_examples :
  List.map parseInt ["12"; " 12th"; "-3"; "0x1F"; "page 4"; ""; "0"; "007"]
  = [Some 12; Some 12; Some (-3); Some 31; None; None; Some 0; Some 7].
Proof. reflexivity. Qed.

(** The parts of the split, rendered one by one. *)
Lemma renderContent_rendering (sources : list Source) (s : list ascii) :
  Rendering sources s
    (List.map (fun part =>
       match match_group part with
       | Some ds =>
           let id := parseInt (string_of_list_ascii ds) in
           ElemBadge (CitationBadge id (find_source id sources))
       | None => ElemSpan (string_of_list_ascii part)
       end) (split_citations s)).
Proof.
  apply (split_citations_elim
           (fun s parts =>
              Rendering sources s
                (List.map (fun part =>
                   match match_group part with
                   | Some ds =>
                       let id := parseInt (string_of_list_ascii ds) in
                       ElemBadge (CitationBadge id (find_source id sources))
                   | None => ElemSpan (string_of_list_ascii part)
                   end) parts))).
  - intros s0 pre ds r e IH _.
    apply search_inv in e as (-> & Hds & Hno).
    cbn [List.map]. rewrite (match_group_text pre Hno), (match_group_marker ds Hds).
    cbn zeta. rewrite (parseInt_digits ds Hds).
    now apply Rendering_marker.
  - intros s0 e _. apply search_none in e.
    cbn [List.map]. rewrite (match_group_text s0 e). now apply Rendering_text.
Qed.

Lemma list_ascii_of_string_append (a b : string) :
  list_ascii_of_string (a +:+ b) = list_ascii_of_string a ++ list_ascii_of_string b.
Proof.
  induction a as [|c a IH]; [reflexivity|].
  rewrite append_cons. cbn [list_ascii_of_string app]. now rewrite IH.
Qed.

(** The replacement text of the source is the Markdown link to the target
    of the marker. *)
Lemma citation_link_markdown (ds : list ascii) : citation_link ds = citation_markdown ds.
Proof.
  unfold citation_link, citation_markdown, citation_href.
  rewrite list_ascii_of_string_append, list_ascii_of_string_of_list_ascii.
  reflexivity.
Qed.

Lemma replace_citations_preprocessed (s : list ascii) :
  Preprocessed s (replace_citations s).
Proof.
  apply (replace_citations_elim (fun s out => Preprocessed s out)).
  - intros s0 pre ds r e IH _.
    apply search_inv in e as (-> & Hds & Hno). rewrite citation_link_markdown.
    now apply Preprocessed_marker.
  - intros s0 e _. apply search_none in e. now apply Preprocessed_text.
Qed.


(** Two ways of cutting one list at an element. *)
Lemma app_cons_eq_app_cons {A} (l1 l2 u v : list A) (x y : A) :
  l1 ++ x :: u = l2 ++ y :: v ->
  (exists w, l1 = l2 ++ y :: w /\ v = w ++ x :: u)
  \/ (l1 = l2 /\ x = y /\ u = v)
  \/ (exists w, l2 = l1 ++ x :: w /\ u = w ++ y :: v).
Proof.
  revert l2; induction l1 as [|a l1 IH]; intros [|b l2] H; cbn in H.
  - inversion H; subst. right; left; auto.
  - inversion H; subst. right; right. now exists l2.
  - inversion H; subst. left. now exists l1.
  - inversion H; subst. destruct (IH _ H2) as [(w & -> & ->)|[(-> & -> & ->)|(w & -> & ->)]].
    + left. now exists w.
    + right; left; auto.
    + right; right. now exists w.
Qed.

Lemma digits_no_bracket (ds w1 w2 : list ascii) (c : ascii) :
  forallb is_digit ds = true -> ds = w1 ++ c :: w2 -> is_digit c = true.
Proof.
  intros H ->. rewrite forallb_app in H. apply andb_prop in H as [_ H].
  cbn in H. now apply andb_prop in H as [H _].
Qed.

(** Markers do not overlap: a marker found in a text that starts with a
    marker-free part [t] and the marker [d0] is that marker, or lies after it. *)
Lemma marker_alignment (pre t d0 rest ds post : list ascii) :
  ~ has_marker t -> digits d0 -> digits ds ->
  t ++ marker d0 ++ rest = pre ++ marker ds ++ post ->
  (pre = t /\ ds = d0 /\ post = rest)
  \/ (exists mid, pre = t ++ marker d0 ++ mid /\ rest = mid ++ marker ds ++ post).
Proof.
  intros Hno Hd0 Hds. revert t Hno.
  induction pre as [|a pre IH]; intros t Hno H.
  - destruct t as [|c t].
    + cbn [app] in H. left.
      pose proof (match_here_marker d0 rest Hd0) as H1.
      pose proof (match_here_marker ds post Hds) as H2.
      rewrite H in H1. rewrite H1 in H2. inversion H2; subst. auto.
    + exfalso. cbn [app] in H. rewrite !marker_app in H. inversion H; subst c.
      apply app_cons_eq_app_cons in H2 as [(w & -> & _)|[(_ & Hb & _)|(w & Hw & _)]].
      * apply Hno. exists [], ds, w. split; [|exact Hds].
        cbn [app]. now rewrite marker_app.
      * discriminate Hb.
      * destruct Hds as [_ Hds]. apply (digits_no_bracket _ _ _ _ Hds) in Hw.
        discriminate Hw.
  - destruct t as [|c t].
    + cbn [app] in H. rewrite !marker_app in H. inversion H; subst a.
      symmetry in H2.
      apply app_cons_eq_app_cons in H2 as [(w & -> & ->)|[(_ & Hb & _)|(w & Hw & _)]].
      * right. exists w. cbn [app]. rewrite !marker_app. split; reflexivity.
      * discriminate Hb.
      * destruct Hd0 as [_ Hd0]. apply (digits_no_bracket _ _ _ _ Hd0) in Hw.
        discriminate Hw.
    + cbn [app] in H. inversion H; subst a.
      assert (Hno' : ~ has_marker t).
      { intros (p & d & q & -> & Hd). apply Hno. now exists (c :: p), d, q. }
      destruct (IH t Hno' H2) as [(-> & -> & ->)|(mid & -> & ->)].
      * left; auto.
      * right. now exists mid.
Qed.

(** Every marker of the text has its badge, between the rendering of what
    precedes it and the rendering of what follows it. *)
Lemma rendering_covers (sources : list Source) (s : list ascii) (els : list Element) :
  Rendering sources s els ->
  forall pre ds post,
    s = pre ++ marker ds ++ post -> digits ds ->
    exists before after,
      els = before ++ badge_of sources ds :: after
      /\ Rendering sources pre before /\ Rendering sources post after.
Proof.
  induction 1 as [t Hno | t d0 rest els Hno Hd0 Hrest IH]; intros pre ds post Hs Hds.
  - exfalso. apply Hno. now exists pre, ds, post.
  - destruct (marker_alignment pre t d0 rest ds post Hno Hd0 Hds Hs)
      as [(-> & -> & ->)|(mid & -> & ->)].
    + exists [ElemSpan (string_of_list_ascii t)], els.
      repeat split; [now apply Rendering_text | exact Hrest].
    + destruct (IH mid ds post eq_refl Hds) as (before & after & -> & Hb & Ha).
      exists (ElemSpan (string_of_list_ascii t) :: badge_of sources d0 :: before), after.
      repeat split; [now apply Rendering_marker | exact Ha].
Qed.




End Citations.

(** ** Component dispatch *)

Section Components.
Import JSON ComponentRenderer.

(** The three registered names reach their components, and a name that is
    neither registered nor a member of [Object.prototype] gets the
    placeholder. *)
Lemma ComponentRenderer_registered (name : string) (props : jsval) :
  ComponentRenderer "chart" props = Element (Registered Chart) props
  /\ ComponentRenderer "table" props = Element (Registered DataTable) props
  /\ ComponentRenderer "card" props = Element (Registered InfoCard) props
  /\ (name <> "chart" -> name <> "table" -> name <> "card" ->
      ~ In name Object_prototype ->
      ComponentRenderer name props = UnknownComponent name).
Proof.
  repeat split. intros H1 H2 H3 H4. unfold ComponentRenderer, componentRegistry.
  apply String.eqb_neq in H1, H2, H3. rewrite H1, H2, H3.
  destruct (existsb (String.eqb name) Object_prototype) eqn:E; [|reflexivity].
  apply existsb_exists in E as (x & Hin & Hx). apply String.eqb_eq in Hx. now subst.
Qed.

(** C6, at the name [constructor]: the lookup finds the member that the
    registry object inherits, the test [!Component] fails, and the renderer
    returns an element of that type instead of the placeholder. *)
Theorem ComponentRenderer_dispatches_inherited_member (props : jsval) :
  ComponentRenderer "constructor" props = Element (Inherited "constructor") props
  /\ ComponentRenderer "constructor" props <> UnknownComponent "constructor".
Proof. split; [reflexivity | discriminate]. Qed.

End Components.

(** ** Citation clicks *)

Section CitationClick.
Import JSString Types ParseInt ChatInterface CitationSpec Exact.

(** C9. A click opens the viewer on the file of the source's [pdf_id], at
    the source's page when it is a number, at the integer [parseInt] reads
    when the page is a string from which it reads a non-zero integer (so at
    the value of the digits the string starts with, when that is not zero),
    and at page 1 when [parseInt] gives [NaN] or zero. The integers read
    are those a double holds exactly, of absolute value at most [2 ^ 53]. *)
Theorem handleCitationClick_opens_page (NEXT_PUBLIC_API_URL : option string)
        (source : Source) :
  let st := handleCitationClick NEXT_PUBLIC_API_URL source in
  isOpen st = true
  /\ url st = Some (baseUrl NEXT_PUBLIC_API_URL +:+ "/api/pdfs/"
                      +:+ src_pdf_id source +:+ "/file")
  /\ highlight st = Some (src_text source)
  /\ (forall n, src_page source = PageNumber n -> page st = n)
  /\ (forall s n, src_page source = PageString s -> parseInt s = Some n -> n <> 0 ->
                  exact_integer n -> page st = n)
  /\ (forall s, src_page source = PageString s ->
                parseInt s = None \/ parseInt s = Some 0 -> page st = 1)
  /\ (forall ds rest,
         src_page source = PageString (string_of_list_ascii (ds ++ rest)) ->
         digits ds -> ends_number rest -> decimal_value 0 ds <> 0 ->
         exact_integer (decimal_value 0 ds) ->
         page st = decimal_value 0 ds).
Proof.
  cbn. repeat split.
  - intros n ->. reflexivity.
  - intros s n -> Hp Hn _. rewrite Hp. cbn. apply Z.eqb_neq in Hn. now rewrite Hn.
  - intros s -> [Hp|Hp]; now rewrite Hp.
  - intros ds rest -> Hds Hrest Hn _.
    rewrite (parseInt_leading_digits ds rest Hds Hrest). cbn.
    apply Z.eqb_neq in Hn. now rewrite Hn.
Qed.

Lemma handleCitationClick_opens_page_witness :
  let source := mkSource 2 "doc-b" "b.pdf" (PageString " 12th") "excerpt" in
  (src_page source = PageString " 12th" /\ parseInt " 12th" = Some 12 /\ 12 <> 0
   /\ exact_integer 12)
  /\ page (handleCitationClick None source) = 12.
Proof.
  intros source.
  assert (H0 : 12 <> 0) by discriminate.
  assert (H1 : exact_integer 12) by (unfold exact_integer, MAX_EXACT_INTEGER; lia).
  split; [split; [reflexivity | split; [reflexivity | split; [exact H0 | exact H1]]]|].
  exact (proj1 (proj2 (proj2 (proj2 (proj2 (handleCitationClick_opens_page None source)))))
               " 12th" 12 eq_refl eq_refl H0 H1).
Defined.

End CitationClick.

(** ** Uploads *)

Section Uploads.
Import JSString DocumentUpload.

(** C10. For a file whose lower-cased name does not end in [.pdf], or whose
    size is above 10 * 1024 * 1024, the handler only shows an alert:
    [uploadDocument] is not called and the upload progress is not set. *)
Theorem handleFileUpload_rejects_invalid_file
        (outcome : UploadOutcome) (file : File) (st : Upload) :
  endsWith ".pdf" (toLowerCase (file_name file)) = false
  \/ file_size file > 10 * 1024 * 1024 ->
  let st' := handleFileUpload outcome file st in
  uploadProgress st' = uploadProgress st
  /\ (exists message, effects st' = effects st ++ [Alert message])
  /\ (forall f, In (UploadDocument f) (effects st') -> In (UploadDocument f) (effects st))
  /\ (forall v, In (SetUploadProgress v) (effects st') -> In (SetUploadProgress v) (effects st)).
Proof.
  intros H.
  assert (Halert : exists message,
             handleFileUpload outcome file st
             = mkUpload (uploadProgress st) (effects st ++ [Alert message])).
  { unfold handleFileUpload.
    destruct (endsWith ".pdf" (toLowerCase (file_name file))) eqn:E; cbn [negb].
    - destruct H as [H|H]; [discriminate H|].
      apply Z.gt_lt, Z.gtb_lt in H. rewrite H. eexists; reflexivity.
    - eexists; reflexivity. }
  destruct Halert as [message ->]. cbn.
  split; [reflexivity|]. split; [now exists message|].
  split; intros x Hin; apply in_app_or in Hin as [Hin|[Hin|[]]]; auto; discriminate Hin.
Qed.

Lemma handleFileUpload_rejects_invalid_file_witness :
  let file := mkFile "Report.PDF" (10 * 1024 * 1024 + 1) in
  (endsWith ".pdf" (toLowerCase (file_name file)) = false
   \/ file_size file > 10 * 1024 * 1024)
  /\ forall f, ~ In (UploadDocument f)
                    (effects (handleFileUpload Resolved file (mkUpload None []))).
Proof.
  intros file.
  assert (H : endsWith ".pdf" (toLowerCase (file_name file)) = false
              \/ file_size file > 10 * 1024 * 1024) by (right; reflexivity).
  split; [exact H|].
  exact (proj1 (proj2 (proj2 (handleFileUpload_rejects_invalid_file
                                Resolved file (mkUpload None []) H)))).
Defined.

(** A file that passes both tests is uploaded. *)
Example handleFileUpload_accepts :
  effects (handleFileUpload Resolved (mkFile "Report.PDF" 2048) (mkUpload None []))
  = [SetUploadProgress (Some (mkUploadProgress (mkFile "Report.PDF" 2048) 0 uploading None));
     SetUploadProgress (Some (mkUploadProgress (mkFile "Report.PDF" 2048) 30 uploading None));
     UploadDocument (mkFile "Report.PDF" 2048);
     SetUploadProgress (Some (mkUploadProgress (mkFile "Report.PDF" 2048) 100 complete None));
     SetTimeout ClearProgressAndNotify 1500].
Proof. reflexivity. Qed.

End Uploads.

(* ================================================================= *)
(** * Further properties of the hook *)

Section HookPaths.
Import JSString JSON Types StreamingChat StreamSpec ChatHook.

Lemma through_terminal_last (events : list json) :
  existsb is_terminal events = true ->
  exists pre t, through_terminal events = pre ++ [t] /\ is_terminal t = true
                /\ before_terminal events = pre.
Proof.
  induction events as [|e events IH]; [discriminate|].
  cbn [existsb through_terminal before_terminal]. destruct (is_terminal e) eqn:He.
  - intros _. now exists [], e.
  - cbn [orb]. intros H. destruct (IH H) as (pre & t & -> & Ht & ->).
    now exists (e :: pre), t.
Qed.

Lemma through_terminal_none (events : list json) :
  existsb is_terminal events = false ->
  through_terminal events = events /\ before_terminal events = events.
Proof.
  induction events as [|e events IH]; [auto|].
  cbn. intros H. apply orb_false_elim in H as [He Hl]. rewrite He.
  destruct (IH Hl) as [-> ->]. auto.
Qed.

(** The state in which the loop is left by [return]. *)
Lemma terminal_state aid t st :
  is_terminal t = true ->
  isStreaming (fst (handle_data aid t st)) = false
  /\ abortControllerRef (fst (handle_data aid t st)) = None.
Proof.
  intros Ht. rewrite handle_data_spec. cbn [fst]. unfold is_terminal in Ht.
  destruct (has_type "done" t); [auto|]. cbn in Ht. rewrite Ht. auto.
Qed.

Lemma catch_block_flags err st :
  isStreaming (catch_block err st) = false /\ abortControllerRef (catch_block err st) = None.
Proof. unfold catch_block. destruct (_ && _); auto. Qed.

Lemma read_stream_flags aid body st :
  isStreaming (read_stream aid body st) = false
  /\ abortControllerRef (read_stream aid body st) = None.
Proof.
  unfold read_stream. rewrite read_loop_events, process_events_through.
  destruct (existsb is_terminal _) eqn:E.
  - destruct (through_terminal_last _ E) as (pre & t & -> & Ht & _).
    rewrite apply_events_app. unfold apply_events at 1 3. cbn [fold_left].
    now apply terminal_state.
  - destruct (body_failure body); [apply catch_block_flags | auto].
Qed.

(** X1. On every path (the request fails, the status is not ok, the body
    is missing, the stream ends, a read fails, a [done] or [error] event
    arrives) [sendMessage] leaves the hook not streaming and without a
    controller. *)
Theorem sendMessage_always_stops_streaming
        (API_BASE_URL : string) (env : Environment) (content : string) (st : Hook) :
  isStreaming (sendMessage API_BASE_URL env content st) = false
  /\ abortControllerRef (sendMessage API_BASE_URL env content st) = None.
Proof.
  unfold sendMessage. destruct (fetch_outcome env) as [err | ok status body].
  - apply catch_block_flags.
  - destruct ok; cbn [negb]; [|apply catch_block_flags].
    destruct body; [apply read_stream_flags | apply catch_block_flags].
Qed.

Lemma http_message_not_empty status :
  String.eqb ("HTTP error! status: " +:+ Z_to_string status) "" = false.
Proof. reflexivity. Qed.

(** X2. When the server answers with a status that is not ok, the body is
    not read: the user message and the empty assistant placeholder (still
    flagged as streaming) are the only messages added, and the error shown
    is [HTTP error! status: ] followed by the status. *)
Theorem sendMessage_http_error
        (API_BASE_URL : string) (env : Environment) (content : string) (st : Hook)
        (status : Z) (body : option Body) :
  fetch_outcome env = FetchResponse false status body ->
  sendMessage API_BASE_URL env content st
  = mkHook (messages (before_reading API_BASE_URL env content st)) false
           (Some (JStr ("HTTP error! status: " +:+ Z_to_string status))) None
           (requests st ++ [chat_request API_BASE_URL content])
  /\ exists m, last (messages (sendMessage API_BASE_URL env content st)) = Some m
               /\ msg_role m = assistant /\ msg_content m = ""
               /\ msg_isStreaming m = Some true.
Proof.
  intros H. unfold sendMessage. rewrite H. cbn [negb].
  unfold catch_block. cbn [exn_instanceof_Error exn_name exn_message].
  rewrite http_message_not_empty. cbn. split; [reflexivity|].
  rewrite last_snoc. eexists; repeat split.
Qed.

Lemma sendMessage_http_error_witness :
  let env := mkEnvironment 5 7 (FetchResponse false 503 None) in
  fetch_outcome env = FetchResponse false 503 None
  /\ error (sendMessage "" env "hi" initial_hook) = Some (JStr "HTTP error! status: 503").
Proof.
  intros env. split; [reflexivity|].
  exact (f_equal error (proj1 (sendMessage_http_error "" env "hi" initial_hook 503 None eq_refl))).
Defined.

Lemma message_step_isStreaming data msg :
  msg_isStreaming (message_step data msg)
  = if has_type "done" data then Some false else msg_isStreaming msg.
Proof.
  unfold message_step, update_toolCalls, update_components.
  destruct (has_type "text" data) eqn:H1.
  { now rewrite (has_type_other "text" "done" data) by (discriminate || assumption). }
  destruct (has_type "tool_call" data) eqn:H2.
  { rewrite (has_type_other "tool_call" "done" data) by (discriminate || assumption).
    now destruct (0 <=? _). }
  destruct (has_type "component" data) eqn:H3.
  { now rewrite (has_type_other "component" "done" data) by (discriminate || assumption). }
  destruct (has_type "sources" data) eqn:H4.
  { now rewrite (has_type_other "sources" "done" data) by (discriminate || assumption). }
  now destruct (has_type "done" data).
Qed.

Lemma message_steps_isStreaming events msg :
  msg_isStreaming (message_steps (through_terminal events) msg)
  = if ends_with_done events then Some false else msg_isStreaming msg.
Proof.
  revert msg; induction events as [|e events IH]; intros msg; [reflexivity|].
  cbn [through_terminal ends_with_done]. destruct (is_terminal e) eqn:He.
  - cbn. apply message_step_isStreaming.
  - cbn [message_steps fold_left]. unfold message_steps in IH. rewrite IH.
    rewrite message_step_isStreaming.
    unfold is_terminal in He. apply orb_false_elim in He as [-> _].
    reflexivity.
Qed.

(** Without a terminal event, the events leave the error as it is. *)
Lemma apply_events_error aid events st :
  existsb is_terminal events = false ->
  error (apply_events aid events st) = error st.
Proof.
  revert st; induction events as [|e events IH]; intros st H; [reflexivity|].
  cbn in H. apply orb_false_elim in H as [He Hl].
  unfold apply_events in *. cbn [fold_left]. rewrite (IH _ Hl).
  rewrite handle_data_spec. cbn [fst].
  unfold is_terminal in He. apply orb_false_elim in He as [-> ->]. reflexivity.
Qed.

(** The assistant message after the events of a successful response. *)
Lemma sendMessage_assistant API_BASE_URL env content st status body :
  fetch_outcome env = FetchResponse true status (Some body) ->
  exists earlier,
    messages (sendMessage API_BASE_URL env content st)
    = earlier
        ++ [message_steps (through_terminal (events_of_chunks (body_chunks body)))
              (mkMessage ("msg_" +:+ Z_to_string (now_assistant env + 1)) assistant ""
                         (now_assistant env) (Some (JArr [])) None None (Some true))].
Proof.
  intros H. rewrite (sendMessage_reads _ _ _ _ _ _ H).
  rewrite read_stream_messages, read_loop_events, process_events_through.
  cbn [fst]. rewrite apply_events_messages.
  unfold before_reading; cbn [messages].
  rewrite List.map_app. cbn [List.map msg_id]. rewrite String.eqb_refl.
  eexists. reflexivity.
Qed.

(** X3. After a successful request, the assistant message is flagged as no
    longer streaming exactly when the first terminal event of the body is a
    [done]: after an [error] event, and when the body ends (or a read
    fails) without a terminal event, the message keeps [isStreaming: true]. *)
Theorem assistant_flag_cleared_only_by_done
        (API_BASE_URL : string) (env : Environment) (content : string) (st : Hook)
        (status : Z) (body : Body) :
  fetch_outcome env = FetchResponse true status (Some body) ->
  exists earlier m,
    messages (sendMessage API_BASE_URL env content st) = earlier ++ [m]
    /\ msg_role m = assistant
    /\ msg_isStreaming m
       = Some (negb (ends_with_done (events_of_chunks (body_chunks body)))).
Proof.
  intros H. destruct (sendMessage_assistant API_BASE_URL _ content st _ _ H) as [earlier Heq].
  eexists _, _. split; [exact Heq|]. split.
  - now rewrite message_steps_role.
  - rewrite message_steps_isStreaming. cbn [msg_isStreaming].
    now destruct (ends_with_done _).
Qed.

Lemma assistant_flag_cleared_only_by_done_witness :
  let body := mkBody [frame (payload "{'type':'text','content':'partial'}");
                      frame (payload "{'type':'error','content':'model failed'}")] None in
  let env := mkEnvironment 5 7 (FetchResponse true 200 (Some body)) in
  fetch_outcome env = FetchResponse true 200 (Some body)
  /\ exists earlier m,
      messages (sendMessage "" env "hi" initial_hook) = earlier ++ [m]
      /\ msg_role m = assistant /\ msg_isStreaming m = Some true.
Proof.
  intros body env. split; [reflexivity|].
  exact (assistant_flag_cleared_only_by_done "" env "hi" initial_hook 200 body eq_refl).
Defined.

(** X4. When a read fails before any [done] or [error] event, every event
    read so far has been applied: the assistant message keeps the text
    streamed up to the failure. The error shown is the exception's message
    ([Failed to connect] when it is empty), and nothing for an
    [AbortError]. The text events carry a [content] whose conversion to a
    string is exact, as in C1. *)
Theorem read_failure_keeps_streamed_text
        (API_BASE_URL : string) (env : Environment) (content : string) (st : Hook)
        (status : Z) (body : Body) (err : Exception) :
  fetch_outcome env = FetchResponse true status (Some body) ->
  body_failure body = Some err ->
  existsb is_terminal (events_of_chunks (body_chunks body)) = false ->
  Exact.coercible_texts (events_of_chunks (body_chunks body)) = true ->
  (exists earlier m,
      messages (sendMessage API_BASE_URL env content st) = earlier ++ [m]
      /\ msg_role m = assistant
      /\ msg_content m
         = concat_strings (List.map text_content
                             (List.filter is_text (events_of_chunks (body_chunks body)))))
  /\ error (sendMessage API_BASE_URL env content st) = shown_error err.
Proof.
  intros H Hfail Hnone _.
  destruct (through_terminal_none _ Hnone) as [Hthr Hbef]. split.
  - destruct (sendMessage_assistant API_BASE_URL _ content st _ _ H) as [earlier Heq].
    eexists _, _. split; [exact Heq|]. split; [now rewrite message_steps_role|].
    rewrite message_steps_content, Hthr. cbn [msg_content]. apply append_nil_l.
  - rewrite (sendMessage_reads _ _ _ _ _ _ H). unfold read_stream.
    rewrite read_loop_events, process_events_through, Hnone, Hfail, Hthr.
    cbn [fst]. unfold catch_block, shown_error.
    destruct (_ && _); cbn [error setError setIsStreaming setAbortController].
    + reflexivity.
    + now rewrite (apply_events_error _ _ _ Hnone).
Qed.

Lemma read_failure_keeps_streamed_text_witness :
  let err := mkException true "TypeError" "network error" in
  let body := mkBody [frame (payload "{'type':'text','content':'Hel'}");
                      frame (payload "{'type':'text','content':'lo'}")] (Some err) in
  let env := mkEnvironment 5 7 (FetchResponse true 200 (Some body)) in
  (fetch_outcome env = FetchResponse true 200 (Some body)
   /\ body_failure body = Some err
   /\ existsb is_terminal (events_of_chunks (body_chunks body)) = false
   /\ Exact.coercible_texts (events_of_chunks (body_chunks body)) = true)
  /\ (exists earlier m,
        messages (sendMessage "" env "hi" initial_hook) = earlier ++ [m]
        /\ msg_role m = assistant /\ msg_content m = "Hello")
  /\ error (sendMessage "" env "hi" initial_hook) = Some (JStr "network error").
Proof.
  intros err body env. split; [repeat split|].
  exact (read_failure_keeps_streamed_text "" env "hi" initial_hook 200 body err
           eq_refl eq_refl eq_refl eq_refl).
Defined.

End HookPaths.

Section HookMessages.
Import JSString JSON Types StreamingChat StreamSpec ChatHook ChatLayout.

Lemma lookup_map {A B} (f : A -> B) (l : list A) (i : nat) :
  List.map f l !! i = option_map f (l !! i).
Proof.
  revert i; induction l as [|x l IH]; intros [|i]; cbn; try reflexivity. apply IH.
Qed.

(** X5. Reading a response never touches a message whose id is not the
    assistant's: every such message is found unchanged at its index, and
    the list keeps its length, whatever the body carries. *)
Theorem read_stream_keeps_other_messages
        (aid : string) (body : Body) (st : Hook) (i : nat) (m : Message) :
  messages st !! i = Some m ->
  msg_id m <> aid ->
  messages (read_stream aid body st) !! i = Some m
  /\ List.length (messages (read_stream aid body st)) = List.length (messages st).
Proof.
  intros Hm Hid.
  rewrite read_stream_messages, read_loop_events, process_events_through.
  cbn [fst]. rewrite apply_events_messages. split.
  - rewrite lookup_map, Hm. cbn. apply String.eqb_neq in Hid. now rewrite Hid.
  - apply List.length_map.
Qed.

Lemma read_stream_keeps_other_messages_witness :
  let st := before_reading "" (mkEnvironment 5 7 (FetchResponse true 200 None))
                           "question" initial_hook in
  let body := mkBody [frame (payload "{'type':'text','content':'answer'}");
                      frame (payload "{'type':'done'}")] None in
  let m := mkMessage "msg_5" user "question" 5 undefined None None None in
  (messages st !! 0%nat = Some m /\ msg_id m <> "msg_8")
  /\ messages (read_stream "msg_8" body st) !! 0%nat = Some m.
Proof.
  intros st body m.
  assert (H : msg_id m <> "msg_8") by discriminate.
  split; [split; [reflexivity | exact H]|].
  exact (proj1 (read_stream_keeps_other_messages "msg_8" body st 0 m eq_refl H)).
Defined.

Lemma filter_type_through (t : string) (events : list json) :
  t <> "done" -> t <> "error" ->
  List.filter (has_type t) (through_terminal events)
  = List.filter (has_type t) (before_terminal events).
Proof.
  intros Hd He. induction events as [|e events IH]; [reflexivity|].
  cbn [through_terminal before_terminal]. destruct (is_terminal e) eqn:Ht.
  - cbn. unfold is_terminal in Ht. apply orb_prop in Ht as [Ht|Ht].
    + rewrite (has_type_other "done" t e); auto.
    + rewrite (has_type_other "error" t e); auto.
  - cbn. now rewrite IH.
Qed.

Lemma message_step_components data msg :
  msg_components (message_step data msg)
  = if has_type "component" data
    then Some (default [] (msg_components msg)
                 ++ [mkComponent (prop data "name") (prop data "props")])
    else msg_components msg.
Proof.
  unfold message_step, update_toolCalls, update_components.
  destruct (has_type "text" data) eqn:H1.
  { now rewrite (has_type_other "text" "component" data) by (discriminate || assumption). }
  destruct (has_type "tool_call" data) eqn:H2.
  { rewrite (has_type_other "tool_call" "component" data) by (discriminate || assumption).
    now destruct (0 <=? _). }
  destruct (has_type "component" data) eqn:H3; [reflexivity|].
  destruct (has_type "sources" data); [reflexivity|].
  now destruct (has_type "done" data).
Qed.

Lemma message_steps_components events msg :
  msg_components (message_steps events msg)
  = match List.map (fun e => mkComponent (prop e "name") (prop e "props"))
                   (List.filter (has_type "component") events) with
    | [] => msg_components msg
    | added => Some (default [] (msg_components msg) ++ added)
    end.
Proof.
  revert msg; induction events as [|e events IH]; intros msg; [reflexivity|].
  cbn [message_steps fold_left List.filter]. unfold message_steps in IH.
  rewrite IH, message_step_components.
  destruct (has_type "component" e); [|reflexivity].
  cbn [List.map].
  destruct (List.map _ (List.filter _ events)) as [|c cs].
  - reflexivity.
  - unfold default; cbn [from_option id]. now rewrite <- app_assoc.
Qed.

(** X6. The components of the assistant message are those of the
    [component] events that precede the first terminal event, in arrival
    order and with repetitions; the field stays absent when there is none. *)
Theorem components_accumulate_in_order
        (API_BASE_URL : string) (env : Environment) (content : string) (st : Hook)
        (status : Z) (body : Body) :
  fetch_outcome env = FetchResponse true status (Some body) ->
  exists earlier m,
    messages (sendMessage API_BASE_URL env content st) = earlier ++ [m]
    /\ msg_role m = assistant
    /\ msg_components m
       = match event_components (events_of_chunks (body_chunks body)) with
         | [] => None
         | added => Some added
         end.
Proof.
  intros H. destruct (sendMessage_assistant API_BASE_URL _ content st _ _ H) as [earlier Heq].
  eexists _, _. split; [exact Heq|]. split; [now rewrite message_steps_role|].
  rewrite message_steps_components. cbn [msg_components default app].
  unfold event_components.
  now rewrite (filter_type_through "component") by discriminate.
Qed.

Lemma components_accumulate_in_order_witness :
  let body := mkBody [frame (payload "{'type':'component','name':'chart','props':{}}");
                      frame (payload "{'type':'component','name':'chart','props':{}}");
                      frame (payload "{'type':'done'}");
                      frame (payload "{'type':'component','name':'card','props':{}}")] None in
  let env := mkEnvironment 5 7 (FetchResponse true 200 (Some body)) in
  fetch_outcome env = FetchResponse true 200 (Some body)
  /\ exists earlier m,
      messages (sendMessage "" env "hi" initial_hook) = earlier ++ [m]
      /\ msg_role m = assistant
      /\ msg_components m
         = Some [mkComponent (Some (JStr "chart")) (Some (JObj []));
                 mkComponent (Some (JStr "chart")) (Some (JObj []))].
Proof.
  intros body env. split; [reflexivity|].
  exact (components_accumulate_in_order "" env "hi" initial_hook 200 body eq_refl).
Defined.

Lemma message_step_sources data msg :
  msg_sources (message_step data msg)
  = if has_type "sources" data then prop data "content" else msg_sources msg.
Proof.
  unfold message_step, update_toolCalls, update_components.
  destruct (has_type "text" data) eqn:H1.
  { now rewrite (has_type_other "text" "sources" data) by (discriminate || assumption). }
  destruct (has_type "tool_call" data) eqn:H2.
  { rewrite (has_type_other "tool_call" "sources" data) by (discriminate || assumption).
    now destruct (0 <=? _). }
  destruct (has_type "component" data) eqn:H3.
  { now rewrite (has_type_other "component" "sources" data) by (discriminate || assumption). }
  destruct (has_type "sources" data); [reflexivity|].
  now destruct (has_type "done" data).
Qed.

Lemma message_steps_sources events msg :
  msg_sources (message_steps events msg)
  = match List.rev (List.filter (has_type "sources") events) with
    | e :: _ => prop e "content"
    | [] => msg_sources msg
    end.
Proof.
  induction events as [|e events IH] using rev_ind; [reflexivity|].
  unfold message_steps in *. rewrite fold_left_app. cbn [fold_left].
  rewrite message_step_sources, List.filter_app, List.rev_app_distr.
  cbn [List.filter]. destruct (has_type "sources" e); cbn; [reflexivity | exact IH].
Qed.

(** X7. The [sources] of the assistant message are those of the last
    [sources] event before the first terminal event: each such event
    replaces what the earlier ones gave. Without one, the field is the
    empty array the placeholder starts with. *)
Theorem last_sources_event_wins
        (API_BASE_URL : string) (env : Environment) (content : string) (st : Hook)
        (status : Z) (body : Body) :
  fetch_outcome env = FetchResponse true status (Some body) ->
  exists earlier m,
    messages (sendMessage API_BASE_URL env content st) = earlier ++ [m]
    /\ msg_role m = assistant
    /\ msg_sources m
       = default (Some (JArr [])) (last_sources (events_of_chunks (body_chunks body))).
Proof.
  intros H. destruct (sendMessage_assistant API_BASE_URL _ content st _ _ H) as [earlier Heq].
  eexists _, _. split; [exact Heq|]. split; [now rewrite message_steps_role|].
  rewrite message_steps_sources. cbn [msg_sources]. unfold last_sources.
  rewrite (filter_type_through "sources") by discriminate.
  now destruct (List.rev _).
Qed.

Lemma last_sources_event_wins_witness :
  let body := mkBody [frame (payload "{'type':'sources','content':[1]}");
                      frame (payload "{'type':'sources','content':[2]}");
                      frame (payload "{'type':'done'}")] None in
  let env := mkEnvironment 5 7 (FetchResponse true 200 (Some body)) in
  fetch_outcome env = FetchResponse true 200 (Some body)
  /\ exists earlier m,
      messages (sendMessage "" env "hi" initial_hook) = earlier ++ [m]
      /\ msg_role m = assistant
      /\ msg_sources m = Some (JArr [JNum (mkNumber 2 0)]).
Proof.
  intros body env. split; [reflexivity|].
  exact (last_sources_event_wins "" env "hi" initial_hook 200 body eq_refl).
Defined.

Lemma hook_eta (st : Hook) :
  mkHook (messages st) (isStreaming st) (error st) (abortControllerRef st) (requests st) = st.
Proof. now destruct st. Qed.

Lemma process_line_ignored aid line st :
  ignored_line line = true -> process_line aid line st = (st, Continue).
Proof.
  unfold ignored_line, line_event, process_line.
  destruct (startsWith "data: " line); [|reflexivity].
  destruct (JSON_parse (substring_from 6 line)) as [data|]; [|reflexivity].
  intros H. apply negb_true_iff in H.
  repeat (apply orb_false_elim in H as [H ?]).
  rewrite handle_data_spec. unfold is_terminal, message_step.
  repeat match goal with Hx : has_type _ data = false |- _ => rewrite Hx; clear Hx end.
  cbn [orb]. now rewrite map_if_same, hook_eta.
Qed.

(** X8. A line that does not start with [data: ], or whose rest is not
    JSON, or that carries a value with no known [type] (also [null], a
    number, an array) changes nothing and does not stop the reading: the
    lines around it are handled as if it were not there. *)
Theorem ignored_line_has_no_effect
        (aid : string) (before after : list string) (line : string) (st : Hook) :
  ignored_line line = true ->
  process_lines aid (before ++ line :: after) st = process_lines aid (before ++ after) st.
Proof.
  intros H. rewrite !process_lines_app.
  destruct (process_lines aid before st) as [st' []]; [|reflexivity].
  cbn [process_lines]. now rewrite (process_line_ignored _ _ _ H).
Qed.

Lemma ignored_line_has_no_effect_witness :
  let text := "data: " +:+ payload "{'type':'text','content':'a'}" in
  ignored_line (payload "data: {'type':'te") = true
  /\ process_lines "msg_1" ([text] ++ payload "data: {'type':'te" :: [text]) initial_hook
     = process_lines "msg_1" ([text] ++ [text]) initial_hook.
Proof.
  intros text. split; [reflexivity|].
  exact (ignored_line_has_no_effect "msg_1" [text] [text]
                                    (payload "data: {'type':'te") initial_hook eq_refl).
Defined.

(** X9. The typing indicator of the chat view is never rendered for a
    state of a running [sendMessage]: from the moment the request is sent
    the last message is the assistant's, whatever events have been applied;
    and when [sendMessage] is over the hook is no longer streaming. *)
Theorem typing_indicator_never_shown
        (API_BASE_URL : string) (env : Environment) (content : string) (st : Hook)
        (events : list json) :
  typing_indicator
    (apply_events ("msg_" +:+ Z_to_string (now_assistant env + 1)) events
                  (before_reading API_BASE_URL env content st)) = false
  /\ typing_indicator (sendMessage API_BASE_URL env content st) = false.
Proof.
  split.
  - unfold typing_indicator. rewrite apply_events_messages.
    unfold before_reading; cbn [messages].
    rewrite List.map_app. cbn [List.map msg_id]. rewrite String.eqb_refl, last_snoc.
    rewrite message_steps_role. cbn. apply andb_false_r.
  - assert (Hs : isStreaming (sendMessage API_BASE_URL env content st) = false).
    { unfold sendMessage. destruct (fetch_outcome env) as [err | ok status body].
      - apply catch_block_flags.
      - destruct ok; cbn [negb]; [|apply catch_block_flags].
        destruct body; [apply read_stream_flags | apply catch_block_flags]. }
    unfold typing_indicator. rewrite Hs. now destruct (last _).
Qed.

End HookMessages.

Section ClearMessages.
Import JSString JSON Types StreamingChat StreamSpec ChatHook.

(** X10. [clearMessages] empties the list, clears the error and drops the
    controller, aborting it when there is one; it leaves [isStreaming] as
    it is. After it no event can bring a message back, and the rejection
    that the abort causes in a running [sendMessage] shows no error and
    ends the streaming. *)
Theorem clearMessages_then_abort_is_clean
        (st : Hook) (aid : string) (events : list json) (err : Exception) :
  exn_name err = "AbortError" ->
  let cleared := fst (clearMessages st) in
  messages cleared = [] /\ error cleared = null /\ abortControllerRef cleared = None
  /\ isStreaming cleared = isStreaming st
  /\ snd (clearMessages st) = match abortControllerRef st with
                              | Some _ => true
                              | None => false
                              end
  /\ messages (apply_events aid events cleared) = []
  /\ catch_block err (apply_events aid events cleared)
     = mkHook [] false (error (apply_events aid events cleared)) None (requests st).
Proof.
  intros Hname cleared.
  assert (Hc : cleared = mkHook [] (isStreaming st) null None (requests st)).
  { unfold cleared, clearMessages. destruct st as [ms s e [c|] r]; reflexivity. }
  clearbody cleared. subst cleared.
  assert (Hm : messages (apply_events aid events
                           (mkHook [] (isStreaming st) null None (requests st))) = []).
  { rewrite apply_events_messages. reflexivity. }
  cbn [messages error abortControllerRef isStreaming].
  repeat split; try exact Hm.
  - unfold clearMessages. now destruct st as [ms s e [c|] r].
  - unfold catch_block. rewrite Hname. cbn [String.eqb negb].
    rewrite andb_false_r. unfold setAbortController, setIsStreaming.
    cbn [messages isStreaming error abortControllerRef requests].
    now rewrite Hm, apply_events_requests.
Qed.

Lemma clearMessages_then_abort_is_clean_witness :
  let err := mkException true "AbortError" "aborted" in
  let st := before_reading "" (mkEnvironment 5 7 (FetchResponse true 200 None))
                           "question" initial_hook in
  exn_name err = "AbortError"
  /\ catch_block err (apply_events "msg_8" [] (fst (clearMessages st)))
     = mkHook [] false null None (requests st).
Proof.
  intros err st. split; [reflexivity|].
  exact (proj2 (proj2 (proj2 (proj2 (proj2 (proj2
           (clearMessages_then_abort_is_clean st "msg_8" [] err eq_refl))))))).
Defined.

End ClearMessages.

(* ================================================================= *)
(** * Further properties of the message view *)

Section MessageView.
Import JSString JSON Types ParseInt MessageBubble CitationSpec ChatInterface ChatLayout.

Lemma search_some_or_free (s : list ascii) :
  ~ has_marker s -> search s = None.
Proof.
  intros Hno. destruct (search s) as [[[p d] r]|] eqn:E; [|reflexivity].
  apply search_inv in E as (-> & Hd & _). exfalso. apply Hno. now exists p, d, r.
Qed.

(** X11. The split of a content at its markers loses nothing: the parts
    put together again are the content. There is an odd number of parts;
    those at even positions hold no marker and those at odd positions are
    markers. *)
Theorem split_citations_parts (s : list ascii) :
  List.concat (split_citations s) = s
  /\ (exists k, List.length (split_citations s) = (2 * k + 1)%nat)
  /\ (forall i part, split_citations s !! i = Some part ->
                     if Nat.even i then ~ has_marker part
                     else exists ds, digits ds /\ part = marker ds).
Proof.
  apply (split_citations_elim
           (fun s parts =>
              List.concat parts = s
              /\ (exists k, List.length parts = (2 * k + 1)%nat)
              /\ (forall i part, parts !! i = Some part ->
                                 if Nat.even i then ~ has_marker part
                                 else exists ds, digits ds /\ part = marker ds))).
  - intros s0 pre ds r e (IHc & (k & IHk) & IHp) _.
    apply search_inv in e as (-> & Hds & Hno). split; [|split].
    + cbn [List.concat]. now rewrite IHc.
    + exists (S k). cbn [List.length]. rewrite IHk. lia.
    + intros [|[|i]] part Hp; cbn in Hp.
      * inversion Hp; subst. exact Hno.
      * inversion Hp; subst. now exists ds.
      * specialize (IHp i part Hp). cbn [Nat.even]. exact IHp.
  - intros s0 e _. apply search_none in e. split; [|split].
    + cbn. apply app_nil_r.
    + now exists 0%nat.
    + intros [|i] part Hp; cbn in Hp; [|discriminate Hp].
      inversion Hp; subst. exact e.
Qed.

Lemma split_citations_parts_witness :
  let s := list_ascii_of_string "see [12] here" in
  split_citations s !! 1%nat = Some (list_ascii_of_string "[12]")
  /\ exists ds, digits ds /\ list_ascii_of_string "[12]" = marker ds.
Proof.
  intros s.
  assert (H : split_citations s !! 1%nat = Some (list_ascii_of_string "[12]"))
    by (vm_compute; reflexivity).
  split; [exact H|].
  exact (proj2 (proj2 (split_citations_parts s)) 1%nat (list_ascii_of_string "[12]") H).
Defined.

(** X12. A content without any marker, the empty content included, is
    rendered as a single span with the content, and [preprocessContent]
    returns it unchanged. *)
Theorem content_without_markers (content : string) (sources : list Source) :
  ~ has_marker (list_ascii_of_string content) ->
  renderContent content sources = [ElemSpan content]
  /\ preprocessContent content = content.
Proof.
  intros Hno. split.
  - pose proof (renderContent_rendering sources (list_ascii_of_string content)) as H.
    change (renderContent content sources = [ElemSpan content]).
    unfold renderContent.
    inversion H as [t Ht Heq Hels | t ds rest els Ht Hds Hrest Heq Hels].
    + now rewrite string_of_list_ascii_of_string.
    + exfalso. apply Hno. rewrite <- Heq. now exists t, ds, rest.
  - unfold preprocessContent.
    pose proof (replace_citations_preprocessed (list_ascii_of_string content)) as H.
    inversion H as [t Ht Heq Hout | t ds rest out Ht Hds Hrest Heq Hout].
    + now rewrite string_of_list_ascii_of_string.
    + exfalso. apply Hno. rewrite <- Heq. now exists t, ds, rest.
Qed.

Lemma content_without_markers_witness :
  ~ has_marker (list_ascii_of_string "")
  /\ renderContent "" [] = [ElemSpan ""] /\ preprocessContent "" = "".
Proof.
  split; [exact has_marker_nil|].
  exact (content_without_markers "" [] has_marker_nil).
Defined.

(** X13. Wherever a marker [[n]] stands in the content of a message, with
    [n] a number that a double holds exactly (at most [2 ^ 53]), the view
    holds a badge whose click, through [handleCitationClick], opens the
    viewer on the first source of the list with id [n]; when no source has
    that id the click leaves the viewer state as it is. *)
Theorem citation_click_opens_its_source
        (NEXT_PUBLIC_API_URL : option string) (content : string) (sources : list Source)
        (pre ds post : list ascii) (pdfState : PdfState) :
  list_ascii_of_string content = pre ++ marker ds ++ post ->
  digits ds ->
  Exact.exact_integer (decimal_value 0 ds) ->
  exists before after b,
    renderContent content sources = before ++ ElemBadge b :: after
    /\ badge_id b = Some (decimal_value 0 ds)
    /\ click_badge NEXT_PUBLIC_API_URL b pdfState
       = match List.find (fun s => src_id s =? decimal_value 0 ds) sources with
         | Some source => handleCitationClick NEXT_PUBLIC_API_URL source
         | None => pdfState
         end.
Proof.
  intros Hs Hds _.
  destruct (rendering_covers sources _ _ (renderContent_rendering sources _)
                             pre ds post Hs Hds) as (before & after & Heq & _ & _).
  exists before, after, (CitationBadge (Some (decimal_value 0 ds))
                           (List.find (fun s => src_id s =? decimal_value 0 ds) sources)).
  split; [exact Heq|]. split; [reflexivity|].
  unfold click_badge, badge_click. cbn [badge_source CitationBadge].
  now destruct (List.find _ sources).
Qed.

Lemma citation_click_opens_its_source_witness :
  let s1 := mkSource 1 "doc-a" "a.pdf" (PageString "4") "excerpt" in
  let ds := list_ascii_of_string "1" in
  (list_ascii_of_string "See [1]." = list_ascii_of_string "See " ++ marker ds
                                       ++ list_ascii_of_string "."
   /\ digits ds /\ Exact.exact_integer (decimal_value 0 ds))
  /\ exists before after b,
      renderContent "See [1]." [s1] = before ++ ElemBadge b :: after
      /\ badge_id b = Some 1
      /\ click_badge None b initial_pdfState
         = mkPdfState true (Some "http://localhost:8000/api/pdfs/doc-a/file") 4
                      (Some "excerpt").
Proof.
  intros s1 ds.
  assert (Hd : digits ds) by (split; [discriminate | reflexivity]).
  assert (He : Exact.exact_integer (decimal_value 0 ds))
    by (subst ds; vm_compute; intros H; discriminate H).
  split; [split; [reflexivity | split; [exact Hd | exact He]]|].
  exact (citation_click_opens_its_source None "See [1]." [s1]
           (list_ascii_of_string "See ") ds (list_ascii_of_string ".")
           initial_pdfState eq_refl Hd He).
Defined.

Lemma url_not_empty (a b : string) : String.eqb (a +:+ "/api/pdfs/" +:+ b) "" = false.
Proof. destruct a; reflexivity. Qed.

(** X14. After a citation click the viewer panel is rendered and the
    layout is no longer chat-only: on a wide screen the chat takes 60% and
    the panel 40% of the width, on a mobile screen the chat has width 0 and
    is not displayed while the panel takes the full width. Closing the
    viewer gives the chat-only layout back, with the chat at 100%, and
    keeps the url, the page and the highlight of the last click. *)
Theorem viewer_layout_after_click_and_close
        (NEXT_PUBLIC_API_URL : option string) (source : Source) (isMobile : bool) :
  let opened := handleCitationClick NEXT_PUBLIC_API_URL source in
  PDFViewer.panel_rendered opened = true
  /\ layoutMode opened isMobile = (if isMobile then pdf_only else split_view)
  /\ chat_width (layoutMode opened false) = 60
  /\ PDFViewer.panel_width (layoutMode opened false) = 40
  /\ chat_width (layoutMode opened true) = 0
  /\ PDFViewer.panel_width (layoutMode opened true) = 100
  /\ chat_displayed (layoutMode opened true) = false
  /\ chat_displayed (layoutMode opened false) = true
  /\ chat_width (layoutMode (onClose opened) isMobile) = 100
  /\ layoutMode (onClose opened) isMobile = chat_only
  /\ PDFViewer.panel_rendered (onClose opened) = false
  /\ url (onClose opened) = url opened /\ page (onClose opened) = page opened
  /\ highlight (onClose opened) = highlight opened.
Proof.
  cbn. unfold PDFViewer.panel_rendered. cbn.
  rewrite url_not_empty. repeat split.
Qed.

End MessageView.

(* ================================================================= *)
(** * Page navigation of the viewer *)

Section PageNavigation.
Import PDFViewer.

Lemma click_in_range numPages p c :
  1 <= p <= pages numPages -> 1 <= click numPages p c <= pages numPages.
Proof.
  intros H. unfold click, previous_disabled, next_disabled, previousPage, nextPage.
  destruct c.
  - destruct (Z.leb_spec p 1); lia.
  - destruct (Z.leb_spec (pages numPages) p); lia.
Qed.

(** X15. A page number between 1 and the number of pages ([1] while the
    document is not loaded) stays in this range under any sequence of
    clicks on the previous and next buttons, and each click moves it by at
    most one; the previous updater never gives less than 1 and the next
    updater never more than the number of pages. *)
Theorem page_number_stays_in_range (numPages : option Z) (p : Z) (cs : list Click) :
  1 <= p <= pages numPages ->
  1 <= clicks numPages p cs <= pages numPages
  /\ (forall c, Z.abs (click numPages p c - p) <= 1)
  /\ (forall q, 1 <= previousPage q)
  /\ (forall q, nextPage numPages q <= pages numPages).
Proof.
  intros H. split; [|split; [|split]].
  - unfold clicks. revert p H. induction cs as [|c cs IH]; intros p H; [exact H|].
    cbn [fold_left]. apply IH. now apply click_in_range.
  - intros c. unfold click, previous_disabled, next_disabled, previousPage, nextPage.
    destruct c.
    + destruct (Z.leb_spec p 1); lia.
    + destruct (Z.leb_spec (pages numPages) p); lia.
  - intros q. unfold previousPage. lia.
  - intros q. unfold nextPage. lia.
Qed.

Lemma page_number_stays_in_range_witness :
  1 <= 2 <= pages (Some 3)
  /\ 1 <= clicks (Some 3) 2 [ClickNext; ClickNext; ClickNext; ClickPrevious] <= pages (Some 3).
Proof.
  assert (H : 1 <= 2 <= pages (Some 3)) by (cbn; lia).
  split; [exact H|].
  exact (proj1 (page_number_stays_in_range
                  (Some 3) 2 [ClickNext; ClickNext; ClickNext; ClickPrevious] H)).
Defined.

End PageNavigation.

(* ================================================================= *)
(** * Further properties of the upload and document components *)

Section UploadPaths.
Import JSString JSON DocumentUpload DropZone.

Lemma uploaded_app (a : Upload) (l : list Effect) :
  omap (fun e => match e with UploadDocument f => Some f | _ => None end) (effects a ++ l)
  = uploaded a ++ omap (fun e => match e with UploadDocument f => Some f | _ => None end) l.
Proof. unfold uploaded. apply omap_app. Qed.

(** The effects that a call adds, for a file that passes both tests. *)
Lemma handleFileUpload_valid outcome file st :
  valid_file file = true ->
  handleFileUpload outcome file st
  = mkUpload
      (Some (match outcome with
             | Resolved => mkUploadProgress file 100 complete None
             | ThrewError m => mkUploadProgress file 30 error (Some m)
             | ThrewOther => mkUploadProgress file 30 error (Some "Upload failed")
             end))
      (effects st
         ++ [SetUploadProgress (Some (mkUploadProgress file 0 uploading None));
             SetUploadProgress (Some (mkUploadProgress file 30 uploading None));
             UploadDocument file;
             SetUploadProgress
               (Some (match outcome with
                      | Resolved => mkUploadProgress file 100 complete None
                      | ThrewError m => mkUploadProgress file 30 error (Some m)
                      | ThrewOther => mkUploadProgress file 30 error (Some "Upload failed")
                      end));
             match outcome with
             | Resolved => SetTimeout ClearProgressAndNotify 1500
             | _ => SetTimeout ClearProgress 3000
             end]).
Proof.
  unfold valid_file. intros H. apply andb_prop in H as [Hn Hs].
  unfold handleFileUpload. rewrite Hn. cbn [negb].
  apply Z.leb_le in Hs.
  destruct (Z.gtb_spec (file_size file) (10 * 1024 * 1024)) as [Hgt|_]; [lia|].
  unfold setUploadProgress, perform. cbn [uploadProgress effects].
  destruct outcome; cbn [uploadProgress effects up_file up_progress up_status up_error];
    rewrite <- !app_assoc; reflexivity.
Qed.

Lemma handleFileUpload_invalid outcome file st :
  valid_file file = false ->
  exists message,
    handleFileUpload outcome file st
    = mkUpload (uploadProgress st) (effects st ++ [Alert message]).
Proof.
  unfold valid_file, handleFileUpload. intros H.
  destruct (endsWith ".pdf" (toLowerCase (file_name file))); cbn [negb andb] in *.
  - apply Z.leb_gt in H.
    destruct (Z.gtb_spec (file_size file) (10 * 1024 * 1024)) as [_|Hle]; [|lia].
    eexists; reflexivity.
  - eexists; reflexivity.
Qed.

(** X16. A call of [handleFileUpload] uploads the file exactly once when
    its lower-cased name ends in [.pdf] and its size is at most
    10 * 1024 * 1024 (a file of exactly that size is accepted), and
    uploads nothing otherwise; it never uploads another file. *)
Theorem handleFileUpload_uploads_iff_valid
        (outcome : UploadOutcome) (file : File) (st : Upload) :
  uploaded (handleFileUpload outcome file st)
  = uploaded st ++ (if valid_file file then [file] else []).
Proof.
  destruct (valid_file file) eqn:Hv.
  - rewrite (handleFileUpload_valid outcome file st Hv). unfold uploaded at 1.
    cbn [effects]. rewrite uploaded_app. f_equal. now destruct outcome.
  - destruct (handleFileUpload_invalid outcome file st Hv) as [message ->].
    unfold uploaded at 1. cbn [effects]. now rewrite uploaded_app.
Qed.

(** X17. For a file that passes both tests: when the upload resolves the
    progress ends at 100 with status [complete] and the timer that clears
    it and calls [onUploadComplete] is set; when the upload throws, the
    progress stays at 30 with status [error] and the thrown message
    ([Upload failed] for a value that is not an [Error]), and the timer set
    only clears the progress, so [onUploadComplete] is not called. *)
Theorem handleFileUpload_reports_outcome
        (outcome : UploadOutcome) (file : File) (st : Upload) :
  valid_file file = true ->
  uploadProgress (handleFileUpload outcome file st)
  = Some (match outcome with
          | Resolved => mkUploadProgress file 100 complete None
          | ThrewError m => mkUploadProgress file 30 error (Some m)
          | ThrewOther => mkUploadProgress file 30 error (Some "Upload failed")
          end)
  /\ exists added,
      effects (handleFileUpload outcome file st) = effects st ++ added
      /\ (In (SetTimeout ClearProgressAndNotify 1500) added <-> outcome = Resolved)
      /\ (In (SetTimeout ClearProgress 3000) added <-> outcome <> Resolved)
      /\ (forall message, ~ In (Alert message) added).
Proof.
  intros Hv. rewrite (handleFileUpload_valid outcome file st Hv).
  cbn [uploadProgress effects]. split; [reflexivity|].
  eexists. split; [reflexivity|].
  assert (Hno : forall (l : list Effect) message,
             Forall (fun e => match e with Alert _ => False | _ => True end) l ->
             ~ In (Alert message) l).
  { intros l message Hall Hin.
    exact (proj1 (Stdlib.Lists.List.Forall_forall _ l) Hall _ Hin). }
  assert (Hin : forall e (l : list Effect), In e l -> Exists (eq e) l).
  { intros e l H. apply Stdlib.Lists.List.Exists_exists. eauto. }
  destruct outcome; (split; [|split]);
    try (intros ?; apply Hno; now repeat constructor).
  - split; [reflexivity | intros _; cbn [In]; auto 10].
  - split; [|intros H; now elim H].
    intros H. apply Hin in H.
    repeat (apply Exists_cons in H as [H|H]; [discriminate H|]). inversion H.
  - split; [|discriminate].
    intros H. apply Hin in H.
    repeat (apply Exists_cons in H as [H|H]; [discriminate H|]). inversion H.
  - split; [discriminate | intros _; cbn [In]; auto 10].
  - split; [|discriminate].
    intros H. apply Hin in H.
    repeat (apply Exists_cons in H as [H|H]; [discriminate H|]). inversion H.
  - split; [discriminate | intros _; cbn [In]; auto 10].
Qed.

Lemma handleFileUpload_reports_outcome_witness :
  let file := mkFile "notes.pdf" 2048 in
  valid_file file = true
  /\ uploadProgress (handleFileUpload (ThrewError "disk full") file (mkUpload None []))
     = Some (mkUploadProgress file 30 error (Some "disk full")).
Proof.
  intros file. split; [reflexivity|].
  exact (proj1 (handleFileUpload_reports_outcome (ThrewError "disk full") file
                  (mkUpload None []) eq_refl)).
Defined.

(** X18. A drop ends the dragging state and hands at most one file to the
    upload: the first of the dropped files, uploaded when it is valid.
    The other files are never uploaded, also when the first is refused;
    a drop without files, and a file input without files, upload nothing. *)
Theorem handleDrop_takes_first_file_only
        (outcome : UploadOutcome) (files : list File) (st : Zone) :
  isDragging (handleDrop outcome files st) = false
  /\ uploaded (upload (handleDrop outcome files st))
     = uploaded (upload st)
         ++ match files with
            | file :: _ => if valid_file file then [file] else []
            | [] => []
            end
  /\ uploaded (upload (handleFileSelect outcome (Some files) st))
     = uploaded (upload (handleDrop outcome files st))
  /\ handleFileSelect outcome None st = st.
Proof.
  assert (Hu : forall file u,
             uploaded (handleFileUpload outcome file u)
             = uploaded u ++ (if valid_file file then [file] else [])).
  { intros file u. destruct (valid_file file) eqn:Hv.
    - rewrite (handleFileUpload_valid outcome file u Hv). unfold uploaded at 1.
      cbn [effects]. rewrite uploaded_app. f_equal. now destruct outcome.
    - destruct (handleFileUpload_invalid outcome file u Hv) as [message ->].
      unfold uploaded at 1. cbn [effects]. now rewrite uploaded_app. }
  destruct files as [|file files]; cbn [handleDrop handleFileSelect isDragging upload].
  - rewrite app_nil_r. auto.
  - rewrite Hu. auto.
Qed.

(** X19. What the user sees after the server refuses an upload: the
    [detail] of the JSON error body when it is truthy, as a string (a list
    of validation errors shows as [[object Object]]);
    [Failed to upload document] when the body is not JSON, or is JSON other
    than [null] without a truthy [detail]; and for the body [null] the
    message of the [TypeError] that reading [detail] throws. The [detail]
    is a value whose conversion to a string is exact. A JSON body with an
    ok status completes the upload. *)
Theorem upload_error_shows_server_detail
        (engine : Engine) (file : File) (st : Upload) (body : string) :
  valid_file file = true ->
  let shown ok :=
    option_map (fun p => (up_status p, up_error p))
      (uploadProgress
         (handleFileUpload (uploadDocument engine (UploadResponded ok body)) file st)) in
  (JSON_parse body = None ->
   shown false = Some (error, Some "Failed to upload document"))
  /\ (JSON_parse body = Some JNull ->
      shown false = Some (error, Some (null_property_message engine)))
  /\ (forall v, JSON_parse body = Some v -> v <> JNull ->
                Exact.coercible_value (prop v "detail") = true ->
                shown false
                = Some (error,
                        Some (if truthy (prop v "detail") then toString (prop v "detail")
                              else "Failed to upload document")))
  /\ (forall v, JSON_parse body = Some v -> shown true = Some (complete, None)).
Proof.
  intros Hv shown. unfold shown. repeat split.
  - intros Hp. rewrite (handleFileUpload_valid _ file st Hv).
    cbn [uploadDocument negb]. rewrite Hp. reflexivity.
  - intros Hp. rewrite (handleFileUpload_valid _ file st Hv).
    cbn [uploadDocument negb]. rewrite Hp. reflexivity.
  - intros v Hp Hnull _. rewrite (handleFileUpload_valid _ file st Hv).
    cbn [uploadDocument negb]. rewrite Hp.
    destruct v; try contradiction; cbn [uploadProgress option_map];
      destruct (truthy _); reflexivity.
  - intros v Hp. rewrite (handleFileUpload_valid _ file st Hv).
    cbn [uploadDocument negb]. rewrite Hp. reflexivity.
Qed.

Lemma upload_error_shows_server_detail_witness :
  let file := mkFile "notes.pdf" 2048 in
  let engine := mkEngine (fun _ => "Unexpected token") "Cannot read properties of null" in
  let body := StreamSpec.payload "{'detail':'File too large'}" in
  let v := JObj [("detail", JStr "File too large")] in
  (valid_file file = true
   /\ JSON_parse body = Some v /\ v <> JNull
   /\ Exact.coercible_value (prop v "detail") = true
   /\ JSON_parse "null" = Some JNull)
  /\ option_map (fun p => (up_status p, up_error p))
       (uploadProgress
          (handleFileUpload (uploadDocument engine (UploadResponded false body)) file
                            (mkUpload None [])))
     = Some (error, Some "File too large")
  /\ option_map (fun p => (up_status p, up_error p))
       (uploadProgress
          (handleFileUpload (uploadDocument engine (UploadResponded false "null")) file
                            (mkUpload None [])))
     = Some (error, Some "Cannot read properties of null").
Proof.
  intros file engine body v.
  assert (Hn : v <> JNull) by discriminate.
  split; [repeat split; exact Hn|]. split.
  - exact (proj1 (proj2 (proj2 (upload_error_shows_server_detail
                                  engine file (mkUpload None []) body eq_refl)))
                 v eq_refl Hn eq_refl).
  - exact (proj1 (proj2 (upload_error_shows_server_detail
                           engine file (mkUpload None []) "null" eq_refl)) eq_refl).
Defined.

End UploadPaths.

Section Documents.
Import JSString DocumentList.

(** X20. [handleDelete] changes the list only when the user confirmed and
    [deleteDocument] resolved: then exactly the documents with the given
    id are gone and the others keep their order. A declined confirmation
    leaves the whole state as it is; a failed call keeps every document,
    shows one alert, and clears [deletingId] like a successful one. *)
Theorem handleDelete_removes_only_after_success
        (confirmed : bool) (outcome : Outcome unit) (docId : string) (st : ListState) :
  let st' := handleDelete confirmed outcome docId st in
  documents st'
  = (if confirmed && match outcome with Returned _ => true | _ => false end
     then List.filter (fun doc => negb (String.eqb (doc_id doc) docId)) (documents st)
     else documents st)
  /\ (forall doc, In doc (documents st') ->
                  In doc (documents st)
                  /\ (confirmed = true -> (exists u, outcome = Returned u) ->
                      doc_id doc <> docId))
  /\ (forall doc, In doc (documents st) -> doc_id doc <> docId -> In doc (documents st'))
  /\ (confirmed = false -> st' = st)
  /\ (confirmed = true -> deletingId st' = None)
  /\ (List.length (alerts st') = List.length (alerts st)
                                 + (if confirmed
                                    then match outcome with Returned _ => 0 | _ => 1 end
                                    else 0))%nat.
Proof.
  cbn zeta. unfold handleDelete.
  destruct confirmed; cbn [negb andb].
  - destruct outcome as [u | m |]; cbn [documents deletingId alerts];
      repeat split; try (intros; discriminate); try tauto;
      try (rewrite ?length_app; cbn; lia).
    + apply List.filter_In in H. tauto.
    + intros _ _. apply List.filter_In in H as [_ H].
      apply negb_true_iff, String.eqb_neq in H. exact H.
    + intros doc Hin Hid. apply List.filter_In. split; [exact Hin|].
      apply negb_true_iff, String.eqb_neq. exact Hid.
    + intros _ [u Hu]. discriminate Hu.
    + intros _ [u Hu]. discriminate Hu.
  - repeat split; try tauto; try (intros; discriminate); lia.
Qed.

Lemma handleDelete_removes_only_after_success_witness :
  let a := mkDocument "d1" "a.pdf" 10 2 in
  let b := mkDocument "d2" "b.pdf" 20 3 in
  let st := mkList [a; b] false None None [] in
  (In b (documents st) /\ doc_id b <> "d1")
  /\ In b (documents (handleDelete true (Returned tt) "d1" st)).
Proof.
  intros a b st.
  assert (Hin : In b (documents st)) by (cbn; auto).
  assert (Hid : doc_id b <> "d1") by discriminate.
  split; [split; [exact Hin | exact Hid]|].
  exact (proj1 (proj2 (proj2 (handleDelete_removes_only_after_success
                                true (Returned tt) "d1" st))) b Hin Hid).
Defined.

End Documents.

Section Timestamps.
Import JSString Utils.

(** X21. [formatTimestamp] for a date less than a day old: [Just now]
    below one minute (also for a date in the future), then the whole
    minutes elapsed, between 1 and 59, followed by [m ago], then the whole
    hours elapsed, between 1 and 23, followed by [h ago]; the calendar is
    not consulted. *)
Theorem formatTimestamp_recent (cal : Calendar) (now date : Z) :
  (now - date < 60000 -> formatTimestamp cal now date = "Just now")
  /\ (60000 <= now - date < 3600000 ->
      formatTimestamp cal now date = Z_to_string ((now - date) / 60000) +:+ "m ago"
      /\ 1 <= (now - date) / 60000 <= 59)
  /\ (3600000 <= now - date < 86400000 ->
      formatTimestamp cal now date = Z_to_string ((now - date) / 3600000) +:+ "h ago"
      /\ 1 <= (now - date) / 3600000 <= 23).
Proof.
  set (d := now - date).
  assert (Hs : d / 1000 / 60 = d / 60000) by (rewrite Z.div_div by lia; reflexivity).
  assert (Hh : d / 1000 / 60 / 60 = d / 3600000) by (rewrite !Z.div_div by lia; reflexivity).
  unfold formatTimestamp. fold d. repeat split.
  - intros H. assert (d / 1000 < 60) by (apply Z.div_lt_upper_bound; lia).
    destruct (Z.ltb_spec (d / 1000) 60); [reflexivity | lia].
  - assert (60 <= d / 1000) by (apply Z.div_le_lower_bound; lia).
    destruct (Z.ltb_spec (d / 1000) 60); [lia|].
    rewrite Hs. assert (d / 60000 < 60) by (apply Z.div_lt_upper_bound; lia).
    destruct (Z.ltb_spec (d / 60000) 60); [reflexivity | lia].
  - apply Z.div_le_lower_bound; lia.
  - assert (d / 60000 < 60) by (apply Z.div_lt_upper_bound; lia). lia.
  - assert (60 <= d / 1000) by (apply Z.div_le_lower_bound; lia).
    destruct (Z.ltb_spec (d / 1000) 60); [lia|].
    rewrite Hs. assert (60 <= d / 60000) by (apply Z.div_le_lower_bound; lia).
    destruct (Z.ltb_spec (d / 60000) 60); [lia|].
    rewrite <- Hs, Hh. assert (d / 3600000 < 24) by (apply Z.div_lt_upper_bound; lia).
    destruct (Z.ltb_spec (d / 3600000) 24); [reflexivity | lia].
  - apply Z.div_le_lower_bound; lia.
  - assert (d / 3600000 < 24) by (apply Z.div_lt_upper_bound; lia). lia.
Qed.

Lemma formatTimestamp_recent_witness :
  let cal := mkCalendar (fun _ => 2025) (fun _ => 0) (fun _ => 1) (fun t => t - 86400000)
                        (fun _ => "3:05 PM") (fun _ => "Mon") (fun _ => "Jan 1") in
  60000 <= 1000000 - 700000 < 3600000
  /\ formatTimestamp cal 1000000 700000 = "5m ago".
Proof.
  intros cal.
  assert (H : 60000 <= 1000000 - 700000 < 3600000) by lia.
  split; [exact H|].
  exact (proj1 (proj1 (proj2 (formatTimestamp_recent cal 1000000 700000)) H)).
Defined.

End Timestamps.

Section InputKeys.
Import JSString JSON StreamingChat ParseInt InputBox StreamSpec.

Lemma trim_start_blank (fuel : nat) (s : list ascii) :
  (List.length s <= fuel)%nat -> forallb is_space s = true -> trim_start fuel s = [].
Proof.
  revert s; induction fuel as [|f IH]; intros [|c r] Hlen Hall; try reflexivity.
  - cbn in Hlen. lia.
  - cbn [forallb] in Hall. apply andb_prop in Hall as [Hc Hr].
    cbn [trim_start]. rewrite Hc. apply IH; [cbn in Hlen; lia | exact Hr].
Qed.

Lemma trim_start_head (fuel : nat) (s : list ascii) :
  (List.length s <= fuel)%nat ->
  match trim_start fuel s with
  | [] => True
  | c :: _ => is_space c = false
  end.
Proof.
  revert s; induction fuel as [|f IH]; intros [|c r] Hlen; try exact I.
  - cbn in Hlen. lia.
  - cbn [trim_start]. destruct (is_space c) eqn:Hc.
    + apply IH. cbn in Hlen. lia.
    + destruct (unicode_space_length (c :: r)) as [|n] eqn:Hn; [exact Hc|].
      apply IH. rewrite length_skipn. cbn [List.length] in *. lia.
Qed.

Lemma trimEnd_head (s : list ascii) :
  match trimEnd s with
  | [] => True
  | c :: _ => exists r, s = c :: r /\ trimStart s <> []
  end.
Proof.
  destruct s as [|c r]; [exact I|]. cbn [trimEnd].
  destruct (trimStart (c :: r)) eqn:Ht; [exact I|]. exists r. split; [reflexivity|discriminate].
Qed.

Lemma trim_blank (s : string) :
  forallb is_space (list_ascii_of_string s) = true -> trim s = "".
Proof.
  intros H. unfold trim, trimStart. now rewrite trim_start_blank.
Qed.

Lemma trim_head (s : string) c r : trim s = String c r -> is_space c = false.
Proof.
  unfold trim. intros H.
  pose proof (trimEnd_head (trimStart (list_ascii_of_string s))) as He.
  destruct (trimEnd _) as [|c' r'] eqn:Ht; [discriminate H|].
  cbn [string_of_list_ascii] in H. injection H as -> _.
  destruct He as (r0 & Hs & _).
  pose proof (trim_start_head (List.length (list_ascii_of_string s))
                              (list_ascii_of_string s) (le_n _)) as Hh.
  unfold trimStart in Hs. rewrite Hs in Hh. exact Hh.
Qed.

(** X22. A key pressed in the input box of the chat sends a message only
    when it is [Enter] without Shift, no reply is streaming and the trimmed
    input is not empty. Then the trimmed input, which does not start with
    white space, goes to [sendMessage], one POST carrying it is issued, and
    the box is emptied. In every other case (another key, Shift held, a
    reply streaming, an input that [trim] empties, such as one of spaces
    and line breaks only) the input and the chat state stay as they are:
    while a reply streams, no second request can start from the box. *)
Theorem enter_key_sends_trimmed_input
        (API_BASE_URL : string) (env : Environment) (e : KeyboardEvent)
        (input : string) (st : Hook) :
  let after := key_down API_BASE_URL env e (input, st) in
  (isStreaming st = true -> after = (input, st))
  /\ (String.eqb (key e) "Enter" && negb (shiftKey e) = false -> after = (input, st))
  /\ (trim input = "" -> after = (input, st))
  /\ (forallb is_space (list_ascii_of_string input) = true -> trim input = "")
  /\ (key e = "Enter" -> shiftKey e = false -> isStreaming st = false ->
      trim input <> "" ->
      after = ("", sendMessage API_BASE_URL env (trim input) st)
      /\ requests (snd after) = requests st ++ [chat_request API_BASE_URL (trim input)]
      /\ forall c r, trim input = String c r -> is_space c = false).
Proof.
  cbn zeta. unfold key_down, handleKeyDown, handleSend. repeat split.
  - intros ->. rewrite andb_false_r. now destruct (_ && _).
  - now intros ->.
  - intros ->. cbn [String.eqb negb andb]. now destruct (_ && _).
  - apply trim_blank.
  - rewrite H, H0, H1. apply String.eqb_neq in H2. rewrite H2. reflexivity.
  - rewrite H, H0, H1. apply String.eqb_neq in H2. rewrite H2.
    cbn [String.eqb Ascii.eqb Bool.eqb negb andb snd].
    unfold sendMessage.
    destruct (fetch_outcome env) as [err | ok status body].
    + now rewrite catch_block_requests.
    + destruct ok; cbn [negb].
      * destruct body as [b|].
        -- now rewrite read_stream_requests.
        -- now rewrite catch_block_requests.
      * now rewrite catch_block_requests.
  - intros c r. apply trim_head.
Qed.

Lemma enter_key_sends_trimmed_input_witness :
  let env := mkEnvironment 1000 1000 (FetchResponse false 500 None) in
  let st := mkHook [] false null None [] in
  let e := mkKeyboardEvent "Enter" false in
  let nbsp := String (ascii_of_nat 194) (String (ascii_of_nat 160) "") in
  (key e = "Enter" /\ shiftKey e = false /\ isStreaming st = false
   /\ trim "  hello world  " <> "" /\ trim nbsp = "")
  /\ fst (key_down "http://h" env e ("  hello world  ", st)) = ""
  /\ requests (snd (key_down "http://h" env e ("  hello world  ", st)))
     = [chat_request "http://h" "hello world"]
  /\ key_down "http://h" env e (nbsp, st) = (nbsp, st).
Proof.
  intros env st e nbsp.
  assert (Hn : trim "  hello world  " <> "") by (vm_compute; discriminate).
  assert (Hb : trim nbsp = "") by reflexivity.
  split; [repeat split; assumption|].
  destruct (proj2 (proj2 (proj2 (proj2 (enter_key_sends_trimmed_input "http://h" env e
                                          "  hello world  " st))))
                  eq_refl eq_refl eq_refl Hn) as (H1 & H2 & _).
  split; [now rewrite H1|]. split; [exact H2|].
  exact (proj1 (proj2 (proj2 (enter_key_sends_trimmed_input "http://h" env e nbsp st))) Hb).
Defined.

End InputKeys.

Section ApiFailures.
Import JSString JSON DropZone DocumentList ApiClient.

Lemma apiFetch_catch_fails API_BASE_URL thrown :
  (exists m, apiFetch_catch API_BASE_URL thrown = FailedWith m)
  \/ apiFetch_catch API_BASE_URL thrown = FailedOther.
Proof.
  destruct thrown as [m|m|]; cbn; [destruct (String.eqb _ _)|..]; eauto.
Qed.

Lemma apiFetch_succeeds engine API_BASE_URL result :
  match apiFetch engine API_BASE_URL result with
  | Returned _ => succeeds result = true
  | _ => succeeds result = false
  end.
Proof.
  destruct result as [t | [|] status statusText body]; cbn [apiFetch succeeds negb].
  - now destruct (apiFetch_catch_fails API_BASE_URL t) as [[m ->]| ->].
  - destruct (JSON_parse body); [reflexivity|].
    now destruct (apiFetch_catch_fails API_BASE_URL
                    (ThrownError (syntax_error_message engine body))) as [[m ->]| ->].
  - destruct (match JSON_parse body with Some v => v | None => JObj [] end);
      match goal with
      | |- match apiFetch_catch _ ?t with _ => _ end =>
          now destruct (apiFetch_catch_fails API_BASE_URL t) as [[m ->]| ->]
      end.
Qed.

(** X23. When a request of the api client fails, for whatever reason
    (no connection, a status that is not ok, a body that is not JSON), the
    document list keeps the documents it had: loading them again ends with
    an error shown and the loading flag off, and a confirmed deletion ends
    with one alert, no document removed and no deletion pending. Only an
    ok answer with a JSON body removes the document. Loading also keeps
    the documents and shows an error when the ok answer is [null], on which
    reading [documents] throws; an ok answer with a [documents] array
    replaces the list and shows no error. *)
Theorem failed_request_keeps_documents
        (as_documents : jsval -> list Document) (engine : Engine) (API_BASE_URL : string)
        (result : FetchResult) (docId : string) (st : ListState) :
  let loaded := fetchDocuments (getDocuments as_documents engine API_BASE_URL result) st in
  let deleted := handleDelete true (deleteDocument engine API_BASE_URL result) docId st in
  loading loaded = false
  /\ deletingId deleted = None
  /\ (succeeds result = false ->
      documents loaded = documents st /\ list_error loaded <> None
      /\ documents deleted = documents st
      /\ List.length (alerts deleted) = S (List.length (alerts st)))
  /\ (succeeds result = true ->
      documents deleted
      = List.filter (fun doc => negb (String.eqb (doc_id doc) docId)) (documents st)
      /\ alerts deleted = alerts st)
  /\ (forall status statusText body,
         result = Responded true status statusText body ->
         JSON_parse body = Some JNull ->
         documents loaded = documents st
         /\ list_error loaded = Some (null_property_message engine))
  /\ (forall status statusText body v l,
         result = Responded true status statusText body ->
         JSON_parse body = Some v ->
         prop v "documents" = Some (JArr l) ->
         documents loaded = as_documents (Some (JArr l))
         /\ list_error loaded = None).
Proof.
  cbn zeta. unfold getDocuments, deleteDocument.
  pose proof (apiFetch_succeeds engine API_BASE_URL result) as Hs.
  split; [|split; [|split; [|split; [|split]]]].
  - destruct (apiFetch engine API_BASE_URL result) as [[]|m|]; reflexivity.
  - destruct (apiFetch engine API_BASE_URL result) as [v|m|]; reflexivity.
  - intros Hf.
    destruct (apiFetch engine API_BASE_URL result) as [v|m|];
      [rewrite Hs in Hf; discriminate Hf| |];
      cbn [map_outcome fetchDocuments handleDelete negb documents list_error alerts];
      repeat split; try discriminate; rewrite length_app; cbn; lia.
  - intros Ht.
    destruct (apiFetch engine API_BASE_URL result) as [v|m|];
      [|rewrite Hs in Ht; discriminate Ht|rewrite Hs in Ht; discriminate Ht].
    cbn [map_outcome handleDelete negb documents alerts]. split; reflexivity.
  - intros status statusText body -> Hp. cbn [apiFetch negb]. rewrite Hp.
    split; reflexivity.
  - intros status statusText body v l -> Hp Hd. cbn [apiFetch negb]. rewrite Hp.
    destruct v; try discriminate Hd; cbn [fetchDocuments documents list_error];
      rewrite Hd; split; reflexivity.
Qed.

Lemma failed_request_keeps_documents_witness :
  let engine := mkEngine (fun _ => "Unexpected token") "Cannot read properties of null" in
  let doc := mkDocument "d1" "a.pdf" 10 2 in
  let st := mkList [doc] true None None [] in
  let result := Responded false 404 "Not Found" "gone" in
  let empty := Responded true 200 "OK" "null" in
  (succeeds result = false /\ JSON_parse "null" = Some JNull)
  /\ documents (handleDelete true (deleteDocument engine "http://h" result) "d1" st) = [doc]
  /\ list_error (fetchDocuments (getDocuments (fun _ => []) engine "http://h" empty) st)
     = Some "Cannot read properties of null".
Proof.
  intros engine doc st result empty. split; [split; reflexivity|]. split.
  - exact (proj1 (proj2 (proj2 (proj1 (proj2 (proj2
             (failed_request_keeps_documents (fun _ => []) engine "http://h" result "d1" st)))
             eq_refl)))).
  - exact (proj2 (proj1 (proj2 (proj2 (proj2 (proj2
             (failed_request_keeps_documents (fun _ => []) engine "http://h" empty "d1" st)))))
             200 "OK" "null" eq_refl eq_refl)).
Defined.

(** X24. The message that a failed request leaves in the document list:
    the hint to start the backend, with the base URL, when [fetch] fails
    with [Failed to fetch]; [HTTP <status>: <statusText>] when the answer
    is not ok and its body is not JSON; the [detail] of the body when it is
    a non-empty string. *)
Theorem failed_request_message
        (as_documents : jsval -> list Document) (engine : Engine) (API_BASE_URL : string)
        (st : ListState) :
  let shown result :=
    list_error (fetchDocuments (getDocuments as_documents engine API_BASE_URL result) st) in
  shown (Rejected (ThrownTypeError "Failed to fetch"))
  = Some ("Unable to connect to backend server. Make sure it is running on "
          +:+ API_BASE_URL)
  /\ (forall status statusText body,
        JSON_parse body = None ->
        shown (Responded false status statusText body)
        = Some ("HTTP " +:+ Z_to_string status +:+ ": " +:+ statusText))
  /\ (forall status statusText body v detail,
        JSON_parse body = Some v -> prop v "detail" = Some (JStr detail) -> detail <> "" ->
        shown (Responded false status statusText body) = Some detail).
Proof.
  cbn zeta. unfold getDocuments. repeat split.
  - intros status statusText body Hp. cbn [apiFetch negb]. rewrite Hp. reflexivity.
  - intros status statusText body v detail Hp Hd Hne. cbn [apiFetch negb]. rewrite Hp.
    assert (Ht : truthy (prop v "detail") = true).
    { rewrite Hd. cbn. apply negb_true_iff, String.eqb_neq, Hne. }
    destruct v; try (rewrite Ht, Hd; reflexivity).
    discriminate Hd.
Qed.

Lemma failed_request_message_witness :
  let engine := mkEngine (fun _ => "Unexpected token") "Cannot read properties of null" in
  let st := mkList [] true None None [] in
  JSON_parse "Bad Gateway" = None
  /\ list_error (fetchDocuments
                   (getDocuments (fun _ => []) engine "http://h"
                                 (Responded false 502 "Bad Gateway" "Bad Gateway")) st)
     = Some "HTTP 502: Bad Gateway".
Proof.
  intros engine st. split; [reflexivity|].
  exact (proj1 (proj2 (failed_request_message (fun _ => []) engine "http://h" st))
               502 "Bad Gateway" "Bad Gateway" eq_refl).
Defined.

End ApiFailures.

Section UploadRefresh.
Import JSString DocumentUpload DropZone ChatLayout UploadTimers.

(** X25. An upload and the timers it sets: for a file that passes both
    tests the progress is cleared in the end whether the upload resolved or
    threw, and the document list is told to reload (its refresh trigger
    goes up by one) exactly when the upload resolved. A refused file sets
    no timer: the progress and the trigger stay as they were. *)
Theorem upload_refreshes_list_only_on_success
        (outcome : UploadOutcome) (file : File) (st : Upload * Z) :
  let after := upload_and_wait outcome file st in
  (valid_file file = true ->
   uploadProgress (fst after) = None
   /\ snd after = snd st + (match outcome with Resolved => 1 | _ => 0 end))
  /\ (valid_file file = false ->
      uploadProgress (fst after) = uploadProgress (fst st) /\ snd after = snd st).
Proof.
  cbn zeta. unfold upload_and_wait. split; intros Hv.
  - rewrite (handleFileUpload_valid outcome file _ Hv). unfold timers.
    destruct outcome; cbn; split; try reflexivity; lia.
  - destruct (handleFileUpload_invalid outcome file
                (mkUpload (uploadProgress (fst st)) []) Hv) as [message ->].
    cbn. auto.
Qed.

Lemma upload_refreshes_list_only_on_success_witness :
  let file := mkFile "Report.PDF" (10 * 1024 * 1024) in
  valid_file file = true
  /\ snd (upload_and_wait Resolved file (mkUpload None [], 4)) = 5.
Proof.
  intros file. split; [reflexivity|].
  exact (proj2 (proj1 (upload_refreshes_list_only_on_success Resolved file
                         (mkUpload None [], 4)) eq_refl)).
Defined.

End UploadRefresh.
